(** * marketdata: offers, trade history and the order book module

    A shallow embedding of the Python package (basic_types.py,
    trades.py, orderbook.py, interfaces.py, __init__.py) together with
    the parts of the libraries it runs on: [decimal] (finite numbers
    under the context the package installs), the sorted list of
    [sortedcontainers], and the metaclass of [typing.NamedTuple].
    Definitions come first, theorems after. *)

From Stdlib Require Import ZArith NArith QArith Qabs Qpower Lia Lqa.
From Stdlib Require Import List Bool String Ascii Sorted Permutation.
Import ListNotations.
Local Open Scope Z_scope.

(** ** Exceptions and the state-and-exception monad *)

Inductive exn : Type :=
| AttributeError      (* attribute lookup or assignment on a class or object fails *)
| TypeError           (* a class statement or call of the wrong kind *)
| ImportError         (* a module does not bind the name to import *)
| IndexError          (* sequence index out of range *)
| KeyError            (* mapping key absent *)
| ValueError          (* value absent from a list *)
| Overflow            (* decimal.Overflow, trapped by the default context *)
| DivisionByZero      (* decimal.DivisionByZero, trapped *)
| InvalidOperation.   (* decimal.InvalidOperation (0 / 0), trapped *)

Inductive result (A : Type) : Type :=
| Ok (a : A)
| Raise (e : exn).
Arguments Ok {A} a.
Arguments Raise {A} e.

(** A computation over a mutable state [S]: it returns or raises, and the
    state it leaves behind is the one reached when it stopped, as in
    Python, where an exception does not roll anything back. *)
Definition Py (S A : Type) : Type := S -> result A * S.

Definition ret {S A : Type} (a : A) : Py S A := fun s => (Ok a, s).

Definition bind {S A B : Type} (c : Py S A) (k : A -> Py S B) : Py S B :=
  fun s => match c s with
           | (Ok a, s') => k a s'
           | (Raise e, s') => (Raise e, s')
           end.

Definition lift {S A : Type} (r : result A) : Py S A := fun s => (r, s).

Definition get {S : Type} : Py S S := fun s => (Ok s, s).

Definition put {S : Type} (s : S) : Py S unit := fun _ => (Ok tt, s).

Declare Scope py_scope.
Delimit Scope py_scope with py.
Notation "x <- c ;; k" := (bind c (fun x => k))
  (at level 61, c at next level, right associativity) : py_scope.
Notation "c ;;; k" := (bind c (fun _ => k))
  (at level 61, right associativity) : py_scope.

Definition rbind {A B : Type} (r : result A) (k : A -> result B) : result B :=
  match r with
  | Ok a => k a
  | Raise e => Raise e
  end.

(** ** decimal: finite numbers and the arithmetic context *)

Module Decimal.

(** A finite Decimal: (-1)^sign * coeff * 10^exp.  The coefficient is
    Python's [_int] digit string read as a number. *)
Record t : Type := mk { sign : bool; coeff : N; exp : Z }.

(** The context fields the package depends on.  Rounding is
    ROUND_HALF_EVEN, clamp is 0 and the enabled traps are
    InvalidOperation, DivisionByZero and Overflow (the defaults). *)
Record context : Type := mkContext { prec : Z; Emin : Z; Emax : Z }.

Definition Etiny (ctx : context) : Z := Emin ctx - prec ctx + 1.
Definition Etop (ctx : context) : Z := Emax ctx - prec ctx + 1.

Fixpoint ndigits_aux (fuel : nat) (n : N) : Z :=
  match fuel with
  | O => 1
  | S f => if (n <? 10)%N then 1 else 1 + ndigits_aux f (n / 10)%N
  end.

(** len(self._int): the number of decimal digits, 1 for zero. *)
Definition ndigits (n : N) : Z := ndigits_aux (N.to_nat (N.size n)) n.

Definition pow10 (k : Z) : N := (10 ^ Z.to_N k)%N.

Definition is_zero (x : t) : bool := (coeff x =? 0)%N.

Definition adjusted (x : t) : Z := exp x + ndigits (coeff x) - 1.

(** The rounding decision of [_round_half_even] when the last [k] digits
    of a coefficient are dropped, leaving quotient [q] and remainder [r]:
    true when the kept part is to be incremented. *)
Definition round_up_half_even (q r : N) (k : Z) : bool :=
  let half := (5 * pow10 (k - 1))%N in
  if (r =? half)%N then N.odd q else (half <? r)%N.

(** Decimal._fix: round to the context's precision and exponent range. *)
Definition fix_ (ctx : context) (x : t) : result t :=
  if is_zero x then
    Ok (mk (sign x) 0 (Z.min (Z.max (exp x) (Etiny ctx)) (Emax ctx)))
  else
    let len := ndigits (coeff x) in
    let exp_min0 := len + exp x - prec ctx in
    if Etop ctx <? exp_min0 then Raise Overflow
    else
      let exp_min := if exp_min0 <? Etiny ctx then Etiny ctx else exp_min0 in
      if exp x <? exp_min then
        let digits0 := len + exp x - exp_min in
        let '(c, k) :=
          if digits0 <? 0 then (1%N, 1) else (coeff x, len - digits0) in
        let q := (c / pow10 k)%N in
        let r := (c mod pow10 k)%N in
        let up := round_up_half_even q r k in
        let c1 := if up then (q + 1)%N else q in
        let '(c2, e2) :=
          if up && (prec ctx <? ndigits c1)
          then ((c1 / 10)%N, exp_min + 1) else (c1, exp_min) in
        if Etop ctx <? e2 then Raise Overflow
        else Ok (mk (sign x) c2 e2)
      else Ok x.

(** Decimal.__mul__ *)
Definition mul (ctx : context) (a b : t) : result t :=
  fix_ ctx (mk (xorb (sign a) (sign b)) (coeff a * coeff b) (exp a + exp b)).

(** The loop of __truediv__ that brings an exact quotient as close to
    the ideal exponent as trailing zeros allow. *)
Fixpoint strip_zeros (fuel : nat) (c : N) (e ideal : Z) : N * Z :=
  match fuel with
  | O => (c, e)
  | S f =>
      if (e <? ideal) && (c mod 10 =? 0)%N
      then strip_zeros f (c / 10)%N (e + 1) ideal
      else (c, e)
  end.

(** Decimal.__truediv__ *)
Definition div (ctx : context) (a b : t) : result t :=
  let s := xorb (sign a) (sign b) in
  if is_zero b then
    if is_zero a then Raise InvalidOperation else Raise DivisionByZero
  else if is_zero a then fix_ ctx (mk s 0 (exp a - exp b))
  else
    let shift := ndigits (coeff b) - ndigits (coeff a) + prec ctx + 1 in
    let e := exp a - exp b - shift in
    let n := if 0 <=? shift then (coeff a * pow10 shift)%N else coeff a in
    let d := if 0 <=? shift then coeff b else (coeff b * pow10 (- shift))%N in
    let q := (n / d)%N in
    let r := (n mod d)%N in
    let '(c, e') :=
      if (r =? 0)%N then strip_zeros (Z.to_nat shift) q e (exp a - exp b)
      else ((if (q mod 5 =? 0)%N then q + 1 else q)%N, e) in
    fix_ ctx (mk s c e').

(** Magnitudes of two nonzero numbers, as [_cmp] compares them: by
    adjusted exponent first, then digit strings padded to equal length. *)
Definition cmp_abs (a b : t) : comparison :=
  match adjusted a ?= adjusted b with
  | Eq => (coeff a * pow10 (exp a - exp b) ?= coeff b * pow10 (exp b - exp a))%N
  | c => c
  end.

(** Decimal._cmp *)
Definition cmp (a b : t) : comparison :=
  if is_zero a then
    if is_zero b then Eq else if sign b then Gt else Lt
  else if is_zero b then
    if sign a then Lt else Gt
  else
    match sign a, sign b with
    | true, false => Lt
    | false, true => Gt
    | false, false => cmp_abs a b
    | true, true => CompOpp (cmp_abs a b)
    end.

Definition ltb (a b : t) : bool :=
  match cmp a b with Lt => true | _ => false end.

Definition eqb (a b : t) : bool :=
  match cmp a b with Eq => true | _ => false end.

(** Decimal(n) for a Python int. *)
Definition of_Z (n : Z) : t := mk (n <? 0) (Z.abs_N n) 0.

End Decimal.

(** ** basic_types.py *)

(** decimal_getcontext().prec = 8, on top of the default context. *)
Definition decimal_getcontext : Decimal.context :=
  Decimal.mkContext 8 (-999999) 999999.

Definition Amount : Type := Decimal.t.
Definition Price : Type := Decimal.t.

Record Currency : Type := mkCurrency { symbol : string; issuer : string }.

Record Market : Type := mkMarket { base : Currency; counter : Currency }.

(** Currency.__str__: '{:s}.{:s}' when the issuer is a nonempty string,
    '{:s}' otherwise, formatted with (symbol, issuer). *)
Definition Currency_str (c : Currency) : string :=
  if String.eqb (issuer c) "" then symbol c
  else (symbol c ++ "." ++ issuer c)%string.

(** Market.__str__: '{!s:s}/{!s:s}' formatted with (base, counter). *)
Definition Market_str (m : Market) : string :=
  (Currency_str (base m) ++ "/" ++ Currency_str (counter m))%string.

(** Offer with its two concrete classes: [is_bid] is the class attribute
    that BuyOffer sets to True and SellOffer to False. *)
Module Offer.

Record t : Type := mk {
  is_bid : bool;
  base_amount : Amount;
  base_remaining : Amount;
  counter_amount : Amount;
  counter_remaining : Amount
}.

(** Offer.__init__, reached through cls(base_amount, counter_amount);
    Decimal(x) of a Decimal is that same number, without rounding. *)
Definition init (cls_is_bid : bool) (base_amount counter_amount : Amount) : t :=
  mk cls_is_bid base_amount base_amount counter_amount counter_amount.

Definition price (o : t) : result Price :=
  Decimal.div decimal_getcontext (counter_amount o) (base_amount o).

Definition price_remaining (o : t) : result Price :=
  Decimal.div decimal_getcontext (counter_remaining o) (base_remaining o).

Definition is_partial (o : t) : bool :=
  Decimal.ltb (base_remaining o) (base_amount o).

Definition from_price (cls_is_bid : bool) (base_amount : Amount) (price : Price)
  : result t :=
  rbind (Decimal.mul decimal_getcontext base_amount price) (fun counter_amount =>
  Ok (init cls_is_bid base_amount counter_amount)).

End Offer.

Definition BuyOffer : Amount -> Amount -> Offer.t := Offer.init true.
Definition SellOffer : Amount -> Amount -> Offer.t := Offer.init false.

(** A datetime, as its position on the time line. *)
Definition datetime : Type := Z.

Module Trade.

Record t : Type := mk { time : datetime; offer : Offer.t }.

Definition is_bid (t : t) : bool := Offer.is_bid (offer t).

(** Trade.sort_by_time, which History.__init__ reads from the class to
    use as the key function of its sorted list.  The class defines its
    two fields and the property [is_bid] and nothing else, so the lookup
    raises AttributeError. *)
Definition sort_by_time : result (t -> datetime) := Raise AttributeError.

End Trade.

(** ** typing.NamedTuple

    A class statement [class C(NamedTuple): ...] runs its body, which
    binds names in a namespace, and then calls
    [NamedTupleMeta.__new__(typename, bases, ns)] to build the class.  A
    namespace is held as the names it binds, in the order the body bound
    them, and its annotations as the annotated names, in order; every
    annotation of the package is a class, which [_type_check] accepts. *)

Module typing.

Inductive base : Type :=
| NamedTuple       (* typing.NamedTuple *)
| Generic          (* typing.Generic *)
| OtherBase.       (* any other class *)

(** Attributes a class body may not set (the list of CPython 3.11). *)
Definition _prohibited : list string :=
  ["__new__"; "__init__"; "__slots__"; "__getnewargs__"; "_fields";
   "_field_defaults"; "_make"; "_replace"; "_asdict"; "_source"]%string.

Definition _special : list string :=
  ["__module__"; "__name__"; "__annotations__"]%string.

(** key in names *)
Definition mem (key : string) (names : list string) : bool :=
  existsb (String.eqb key) names.

(** The class the metaclass returns: a namedtuple class with its fields,
    the fields that have a default, and the attributes it took over from
    the body. *)
Record NamedTupleClass : Type := mkClass {
  typename : string;
  _fields : list string;
  _field_defaults : list string;
  attributes : list string
}.

(** The loop over the annotations: a field the body also gives a value
    has a default, and a field without one may not follow one with. *)
Fixpoint default_names (types ns acc : list string) : result (list string) :=
  match types with
  | [] => Ok acc
  | field_name :: rest =>
      if mem field_name ns then default_names rest ns (acc ++ [field_name])
      else match acc with
           | [] => default_names rest ns acc
           | _ :: _ => Raise TypeError
           end
  end.

Definition starts_with_underscore (name : string) : bool :=
  match name with
  | String c _ => Ascii.eqb c "_"
  | EmptyString => false
  end.

(** _make_nmtuple: collections.namedtuple on the annotated names.  An
    annotated name is an identifier, no keyword, and occurs once; what
    namedtuple can still refuse is a leading underscore. *)
Definition _make_nmtuple (name : string) (fields defaults : list string)
  : result NamedTupleClass :=
  if existsb starts_with_underscore fields then Raise ValueError
  else Ok (mkClass name fields defaults []).

(** The loop over the namespace: a prohibited name raises, a name that
    is neither special nor a field is set on the class. *)
Fixpoint update_from_namespace (fields ns attrs : list string)
  : result (list string) :=
  match ns with
  | [] => Ok attrs
  | key :: rest =>
      if mem key _prohibited then Raise AttributeError
      else if negb (mem key _special) && negb (mem key fields)
           then update_from_namespace fields rest (attrs ++ [key])
           else update_from_namespace fields rest attrs
  end.

Definition is_other (b : base) : bool :=
  match b with
  | OtherBase => true
  | _ => false
  end.

(** NamedTupleMeta.__new__.  [bases] are the bases of the class
    statement, NamedTuple among them: through it the statement reaches
    this metaclass. *)
Definition NamedTupleMeta_new (name : string) (bases : list base)
  (types ns : list string) : result NamedTupleClass :=
  if existsb is_other bases then Raise TypeError
  else
    rbind (default_names types ns []) (fun defaults =>
    rbind (_make_nmtuple name types defaults) (fun nm_tpl =>
    rbind (update_from_namespace (_fields nm_tpl) ns []) (fun attrs =>
    Ok (mkClass name (_fields nm_tpl) defaults attrs)))).

End typing.

(** An ordinary class, as the names its body binds: [type] builds it
    from any namespace. *)
Definition class_object : Type := list string.

(** ** orderbook.py

    The module as Python executes it on import: its statements in order,
    each binding a global name, until one raises.  The imports of lines
    1 to 8 bind names of the standard library, of sortedcontainers and of
    basic_types, and are taken to succeed. *)

Module orderbook.

(** The names the module binds: the counter, as the next number it will
    hand out, and the two classes. *)
Record globals : Type := mkGlobals {
  _offer_token_id : option Z;
  OfferToken : option typing.NamedTupleClass;
  Orderbook : option class_object
}.

(** The module before its first statement. *)
Definition fresh : globals := mkGlobals None None None.

(** Line 11: _offer_token_id = itertools.count() *)
Definition assign_offer_token_id : Py globals unit :=
  fun g => (Ok tt, mkGlobals (Some 0) (OfferToken g) (Orderbook g)).

(** The body of class OfferToken, lines 14 to 54: the docstring, the
    annotations of price and time, the method __new__ and the property
    is_bid. *)
Definition OfferToken_annotations : list string := ["price"; "time"]%string.

Definition OfferToken_body : list string :=
  ["__module__"; "__qualname__"; "__annotations__"; "__doc__"; "__new__";
   "is_bid"]%string.

(** Lines 13 to 54: class OfferToken(NamedTuple) *)
Definition class_OfferToken : Py globals unit :=
  (cls <- lift (typing.NamedTupleMeta_new "OfferToken" [typing.NamedTuple]
                  OfferToken_annotations OfferToken_body) ;;
   fun g => (Ok tt, mkGlobals (_offer_token_id g) (Some cls) (Orderbook g)))%py.

(** The body of class Orderbook, lines 58 to 152. *)
Definition Orderbook_body : class_object :=
  ["__module__"; "__qualname__"; "__doc__"; "__init__"; "clear"; "add";
   "add_many"; "remove"]%string.

(** Lines 57 to 152: class Orderbook *)
Definition class_Orderbook : Py globals unit :=
  fun g => (Ok tt, mkGlobals (_offer_token_id g) (OfferToken g) (Some Orderbook_body)).

(** The statements of the module, in order. *)
Definition exec : Py globals unit :=
  (assign_offer_token_id ;;; class_OfferToken ;;; class_Orderbook)%py.

(** import of the module: its globals when the body ran through, the
    exception of the statement that raised otherwise. *)
Definition import_ : result globals :=
  match exec fresh with
  | (Ok _, g) => Ok g
  | (Raise e, _) => Raise e
  end.

(** from .orderbook import Orderbook *)
Definition import_Orderbook : result class_object :=
  rbind import_ (fun g =>
    match Orderbook g with
    | Some cls => Ok cls
    | None => Raise ImportError
    end).

End orderbook.

(** ** interfaces.py and the package's __init__.py

    Each as the names it binds when its statements ran through. *)

Module package.

(** interfaces.py: line 4 imports from basic_types, line 5 the class
    Orderbook; line 8 binds ExchangeInterface. *)
Definition interfaces : result (list string) :=
  rbind orderbook.import_Orderbook (fun _ =>
  Ok ["Balance"; "Currency"; "Market"; "Trade"; "Orderbook";
      "ExchangeInterface"]%string).

(** __init__.py: lines 2 and 3 import from basic_types, line 4 the class
    Orderbook, line 5 ExchangeInterface; line 8 binds __version__. *)
Definition init : result (list string) :=
  rbind orderbook.import_Orderbook (fun _ =>
  rbind interfaces (fun _ =>
  Ok ["Amount"; "Balance"; "BuyOffer"; "Currency"; "Market"; "Offer";
      "Price"; "SellOffer"; "Ticker"; "Trade"; "Orderbook";
      "ExchangeInterface"; "__version__"]%string)).

End package.

(** ** sortedcontainers.SortedListWithKey

    A list kept in ascending order of [key value]; the key function is
    the one handed to the constructor.  [eqb] is [==] on the values. *)

Module SortedListWithKey.
Section Ops.
Context {V : Type}.
Variable eqb : V -> V -> bool.

Record t : Type := mk { key : V -> Z; values : list V }.

Definition init (key : V -> Z) : t := mk key [].

(** bisect_right on the keys, then list.insert at that place. *)
Fixpoint insort (key : V -> Z) (l : list V) (v : V) : list V :=
  match l with
  | [] => [v]
  | x :: rest => if key v <? key x then v :: l else x :: insort key rest v
  end.

Definition add (s : t) (v : V) : t := mk (key s) (insort (key s) (values s) v).

(** sorted(iterable, key=...) and list.sort(key=...): stable. *)
Definition sorted (key : V -> Z) (l : list V) : list V :=
  fold_left (insort key) l [].

(** SortedKeyList.update: a small batch is added value by value, a large
    one is appended and the whole list sorted again. *)
Definition update (s : t) (iterable : list V) : t :=
  let vals := sorted (key s) iterable in
  match values s with
  | [] => mk (key s) vals
  | _ :: _ =>
      if Z.of_nat (List.length (values s)) <=? Z.of_nat (List.length vals) * 4
      then mk (key s) (sorted (key s) (values s ++ vals))
      else fold_left add vals s
  end.

Definition clear (s : t) : t := mk (key s) [].

(** s[-1] *)
Definition getitem_last (s : t) : result V :=
  match values s with
  | [] => Raise IndexError
  | x :: rest => Ok (last rest x)
  end.

(** SortedKeyList.remove scans the run of values whose key equals the
    key of [v], from its left end, for the first one equal to [v]. *)
Fixpoint remove_from (key : V -> Z) (l : list V) (v : V) : result (list V) :=
  match l with
  | [] => Raise ValueError
  | x :: rest =>
      if key x <? key v then
        rbind (remove_from key rest v) (fun rest' => Ok (x :: rest'))
      else if key x =? key v then
        if eqb x v then Ok rest
        else rbind (remove_from key rest v) (fun rest' => Ok (x :: rest'))
      else Raise ValueError
  end.

Definition remove (s : t) (v : V) : result t :=
  rbind (remove_from (key s) (values s) v) (fun l => Ok (mk (key s) l)).

End Ops.
End SortedListWithKey.

(** ** trades.py *)

Module History.
Section Methods.

(** Offer defines no __eq__, so [==] on two offers is object identity,
    which the records of this embedding do not carry: the test is taken
    as given. *)
Variable Offer_eq : Offer.t -> Offer.t -> bool.

(** Tuple equality of two trades. *)
Definition Trade_eq (a b : Trade.t) : bool :=
  (Trade.time a =? Trade.time b) && Offer_eq (Trade.offer a) (Trade.offer b).

Record t : Type := mk {
  market : Market;
  trades : SortedListWithKey.t (V := Trade.t)
}.

(** History.__init__ *)
Definition init (market : Market) : result t :=
  rbind Trade.sort_by_time (fun sort_by_time =>
  Ok (mk market (SortedListWithKey.init sort_by_time))).

(** History.last *)
Definition last : Py t Trade.t :=
  (h <- get ;; lift (SortedListWithKey.getitem_last (trades h)))%py.

(** History.clear *)
Definition clear : Py t unit :=
  (h <- get ;;
   put (mk (market h) (SortedListWithKey.clear (trades h))))%py.

(** History.add *)
Definition add (trade : Trade.t) : Py t unit :=
  (h <- get ;;
   put (mk (market h) (SortedListWithKey.add (trades h) trade)))%py.

(** History.add_many *)
Definition add_many (trades_ : list Trade.t) : Py t unit :=
  (h <- get ;;
   put (mk (market h) (SortedListWithKey.update (trades h) trades_)))%py.

(** History.remove *)
Definition remove (trade : Trade.t) : Py t unit :=
  (h <- get ;;
   s <- lift (SortedListWithKey.remove Trade_eq (trades h) trade) ;;
   put (mk (market h) s))%py.

End Methods.
End History.

(** ** Vocabulary of the statements *)

(** The number a Decimal stands for. *)
Definition Dval (x : Decimal.t) : Q :=
  (if Decimal.sign x then -1 else 1) * inject_Z (Z.of_N (Decimal.coeff x))
  * 10 ^ Decimal.exp x.

(** The magnitude of a decimal. *)
Definition Dmag (x : Decimal.t) : Q :=
  (inject_Z (Z.of_N (Decimal.coeff x)) * 10 ^ Decimal.exp x)%Q.

(** A number the context can hold without rounding. *)
Definition representable (ctx : Decimal.context) (x : Decimal.t) : Prop :=
  if Decimal.is_zero x
  then Decimal.Etiny ctx <= Decimal.exp x <= Decimal.Emax ctx
  else Decimal.ndigits (Decimal.coeff x) <= Decimal.prec ctx
       /\ Decimal.Etiny ctx <= Decimal.exp x
       /\ Decimal.ndigits (Decimal.coeff x) + Decimal.exp x - Decimal.prec ctx
          <= Decimal.Etop ctx.

(** Python's [x > 0] on a decimal. *)
Definition positive (x : Decimal.t) : Prop :=
  Decimal.ltb (Decimal.of_Z 0) x = true.

(** Half a unit in the eighth significant digit, relative to the value:
    5E-8. *)
Definition unit_roundoff : Q := 1 # 20000000.

(** The relative error two roundings can add up to: (1 + u)^2 - 1. *)
Definition round_trip_bound : Q :=
  2 * unit_roundoff + unit_roundoff * unit_roundoff.

(** The exception a division raises, by which operands are zero. *)
Definition div_error (a b : Decimal.t) : exn :=
  if Decimal.is_zero b
  then (if Decimal.is_zero a then InvalidOperation else DivisionByZero)
  else Overflow.

(** Both amounts of an offer are positive and their quotient lies in the
    normal range of the context. *)
Definition priced_normally (o : Offer.t) : Prop :=
  positive (Offer.base_amount o) /\ positive (Offer.counter_amount o) /\
  Decimal.Emin decimal_getcontext
  <= Decimal.adjusted (Offer.counter_amount o) - Decimal.adjusted (Offer.base_amount o) - 1 /\
  Decimal.adjusted (Offer.counter_amount o) - Decimal.adjusted (Offer.base_amount o)
  < Decimal.Emax decimal_getcontext.

(** The operations of a trade history. *)
Inductive history_op : Type :=
| HLast
| HClear
| HAdd (trade : Trade.t)
| HAddMany (trades : list Trade.t)
| HRemove (trade : Trade.t).

Definition hexec (Offer_eq : Offer.t -> Offer.t -> bool) (op : history_op)
  : Py History.t unit :=
  match op with
  | HLast => (_ <- History.last ;; ret tt)%py
  | HClear => History.clear
  | HAdd trade => History.add trade
  | HAddMany trades => History.add_many trades
  | HRemove trade => History.remove Offer_eq trade
  end.


(** Values in ascending order of their key. *)
Definition key_sorted {V : Type} (key : V -> Z) (l : list V) : Prop :=
  StronglySorted (fun a b => key a <= key b) l.

(** The trades of a history are in ascending order of its key. *)
Definition history_sorted (h : History.t) : Prop :=
  key_sorted (SortedListWithKey.key (History.trades h))
    (SortedListWithKey.values (History.trades h)).

(** Calling History.add on each trade of a list, in order. *)
Definition history_add_each (trades : list Trade.t) (h : History.t) : History.t :=
  fold_left (fun h trade => snd (History.add trade h)) trades h.

Definition btc_usd : Market :=
  mkMarket (mkCurrency "BTC" "") (mkCurrency "USD" "").

(** A bid whose price, 1E-999999 / 1E+999999, is below the smallest
    number the context can tell from zero. *)
Definition tiny_bid : Offer.t :=
  BuyOffer (Decimal.mk false 1 999999) (Decimal.mk false 1 (-999999)).

Definition tiny_ask : Offer.t :=
  SellOffer (Decimal.mk false 1 999999) (Decimal.mk false 1 (-999999)).

(** A history a caller could hold if the constructor had its key: time
    as the key, three trades. *)
Definition sample_history (o : Offer.t) : History.t :=
  History.mk btc_usd
    (SortedListWithKey.mk Trade.time [Trade.mk 900 o; Trade.mk 930 o; Trade.mk 1000 o]).

Definition bid_9000 : Offer.t := BuyOffer (Decimal.of_Z 1) (Decimal.of_Z 9000).

(** The character occurs in the string. *)
Fixpoint has_char (c : ascii) (s : string) : bool :=
  match s with
  | EmptyString => false
  | String a rest => Ascii.eqb a c || has_char c rest
  end.

(** A currency whose symbol holds neither '.' nor '/' and whose issuer
    holds no '/'. *)
Definition plain_currency (c : Currency) : Prop :=
  has_char "." (symbol c) = false /\ has_char "/" (symbol c) = false /\
  has_char "/" (issuer c) = false.

Definition usd_bank : Currency := mkCurrency "USD" "Bank".

(** A caller's program against the order book: it imports the module
    and goes on, in [rest], with the names the module bound. *)
Definition after_import {S A : Type} (rest : orderbook.globals -> Py S A)
  : Py S A :=
  (g <- lift orderbook.import_ ;; rest g)%py.

(** The class statements of basic_types.py that go through
    NamedTupleMeta, each with its annotations and the names its body
    binds: Currency, Balance, Market, Trade, Ticker. *)
Definition basic_types_classes : list (string * list string * list string) :=
  [("Currency", ["symbol"; "issuer"],
    ["__module__"; "__qualname__"; "__annotations__"; "__doc__"; "issuer"; "__str__"]);
   ("Balance", ["total"; "available"],
    ["__module__"; "__qualname__"; "__annotations__"; "__doc__"]);
   ("Market", ["base"; "counter"],
    ["__module__"; "__qualname__"; "__annotations__"; "__doc__"; "__str__"]);
   ("Trade", ["time"; "offer"],
    ["__module__"; "__qualname__"; "__annotations__"; "__doc__"; "is_bid"]);
   ("Ticker",
    ["time"; "bid"; "ask"; "last"; "volume"; "volume_traded"; "open"; "close";
     "high"; "low"],
    ["__module__"; "__qualname__"; "__annotations__"])]%string.

(** * Theorems *)

(** ** Digits and powers of ten *)

Lemma pow10_Z (k : Z) : 0 <= k -> Z.of_N (Decimal.pow10 k) = 10 ^ k.
Proof.
  intros Hk. unfold Decimal.pow10.
  rewrite N2Z.inj_pow, Z2N.id by assumption. reflexivity.
Qed.

Lemma pow10_nonpos (k : Z) : k <= 0 -> Decimal.pow10 k = 1%N.
Proof.
  intros Hk. unfold Decimal.pow10.
  replace (Z.to_N k) with 0%N by lia. reflexivity.
Qed.

Lemma pow10_pos (k : Z) : (0 < Decimal.pow10 k)%N.
Proof.
  unfold Decimal.pow10. apply N.neq_0_lt_0, N.pow_nonzero. discriminate.
Qed.

Lemma Zpow10_pos (k : Z) : 0 <= k -> 0 < 10 ^ k.
Proof. intros. apply Z.pow_pos_nonneg; lia. Qed.

Lemma Zpow10_succ (k : Z) : 0 <= k -> 10 ^ (k + 1) = 10 * 10 ^ k.
Proof. intros. rewrite Z.pow_add_r by lia. lia. Qed.

Lemma ndigits_aux_pos (fuel : nat) (n : N) : 1 <= Decimal.ndigits_aux fuel n.
Proof.
  revert n. induction fuel as [|f IH]; intros n; cbn [Decimal.ndigits_aux]; [lia|].
  destruct (n <? 10)%N; [lia|]. specialize (IH (n / 10)%N). lia.
Qed.

Lemma ndigits_aux_spec (fuel : nat) (n : N) :
  (0 < n)%N -> (n < 2 ^ N.of_nat fuel)%N ->
  10 ^ (Decimal.ndigits_aux fuel n - 1) <= Z.of_N n
  < 10 ^ Decimal.ndigits_aux fuel n.
Proof.
  revert n. induction fuel as [|f IH]; intros n Hpos Hlt.
  - simpl in Hlt. lia.
  - cbn [Decimal.ndigits_aux]. destruct (N.ltb_spec n 10) as [Hs|Hs].
    + simpl. lia.
    + assert (Hq : (0 < n / 10)%N).
      { apply N.div_str_pos. lia. }
      assert (Hq2 : (n / 10 < 2 ^ N.of_nat f)%N).
      { rewrite Nat2N.inj_succ, N.pow_succ_r' in Hlt.
        apply N.Div0.div_lt_upper_bound. lia. }
      specialize (IH _ Hq Hq2).
      pose proof (ndigits_aux_pos f (n / 10)%N) as Hd.
      set (d := Decimal.ndigits_aux f (n / 10)%N) in *.
      rewrite N2Z.inj_div in IH. change (Z.of_N 10) with 10 in IH.
      replace (1 + d - 1) with ((d - 1) + 1) by lia.
      rewrite (Z.add_comm 1 d).
      rewrite !Zpow10_succ by lia.
      clearbody d. clear Hlt Hq2 Hq.
      generalize dependent (10 ^ (d - 1)). generalize dependent (10 ^ d).
      intros. Z.to_euclidean_division_equations. lia.
Qed.

Lemma ndigits_pos (n : N) : 1 <= Decimal.ndigits n.
Proof. apply ndigits_aux_pos. Qed.

Lemma ndigits_spec (n : N) :
  n <> 0%N -> 10 ^ (Decimal.ndigits n - 1) <= Z.of_N n < 10 ^ Decimal.ndigits n.
Proof.
  intros Hn. apply ndigits_aux_spec; [lia|].
  rewrite N2Nat.id. apply N.size_gt.
Qed.

Lemma Zpow10_le (a b : Z) : 0 <= a <= b -> 10 ^ a <= 10 ^ b.
Proof. intros. apply Z.pow_le_mono_r; lia. Qed.

Lemma Zpow10_lt (a b : Z) : 0 <= a < b -> 10 ^ a < 10 ^ b.
Proof. intros. apply Z.pow_lt_mono_r; lia. Qed.

Lemma ndigits_unique (n : N) (d : Z) :
  1 <= d -> 10 ^ (d - 1) <= Z.of_N n < 10 ^ d -> Decimal.ndigits n = d.
Proof.
  intros Hd [Hlo Hhi].
  assert (Hn : n <> 0%N).
  { intros ->. pose proof (Zpow10_pos (d - 1)). simpl in Hlo. lia. }
  pose proof (ndigits_spec n Hn) as [Hlo' Hhi'].
  pose proof (ndigits_pos n) as Hp.
  destruct (Z.lt_trichotomy (Decimal.ndigits n) d) as [Hc|[Hc|Hc]]; [|assumption|].
  - pose proof (Zpow10_le (Decimal.ndigits n) (d - 1)). lia.
  - pose proof (Zpow10_le d (Decimal.ndigits n - 1)). lia.
Qed.

Lemma ndigits_le (n : N) (p : Z) :
  1 <= p -> Z.of_N n < 10 ^ p -> Decimal.ndigits n <= p.
Proof.
  intros Hp Hlt.
  destruct (N.eq_dec n 0) as [->|Hn]; [change (Decimal.ndigits 0) with 1; lia|].
  pose proof (ndigits_spec n Hn) as [Hlo _].
  pose proof (ndigits_pos n).
  destruct (Z_le_gt_dec (Decimal.ndigits n) p) as [|Hgt]; [assumption|].
  pose proof (Zpow10_le p (Decimal.ndigits n - 1)). lia.
Qed.

Lemma ndigits_ge (n : N) (p : Z) :
  10 ^ p <= Z.of_N n -> p < Decimal.ndigits n.
Proof.
  intros Hle.
  destruct (Z_lt_le_dec p 0) as [Hneg|Hnn].
  { pose proof (ndigits_pos n). lia. }
  assert (Hn : n <> 0%N).
  { intros ->. pose proof (Zpow10_pos p Hnn). simpl in Hle. lia. }
  pose proof (ndigits_spec n Hn) as [_ Hhi].
  pose proof (ndigits_pos n).
  destruct (Z_lt_le_dec p (Decimal.ndigits n)) as [|Hc]; [assumption|].
  pose proof (Zpow10_le (Decimal.ndigits n) p). lia.
Qed.

(** *** Numerical value and comparison *)

Lemma Qpow10_pos (e : Z) : (0 < 10 ^ e)%Q.
Proof. apply Qpower_0_lt. reflexivity. Qed.

Lemma Qpow10_add (a b : Z) : (10 ^ (a + b) == 10 ^ a * 10 ^ b)%Q.
Proof. apply Qpower_plus. discriminate. Qed.

Lemma Qpow10_inject (k : Z) : 0 <= k -> (inject_Z (10 ^ k) == 10 ^ k)%Q.
Proof. intros. apply (Zpower_Qpower 10 k). assumption. Qed.

Lemma Qcompare_inject_Z (x y : Z) : (inject_Z x ?= inject_Z y)%Q = (x ?= y).
Proof. unfold Qcompare. simpl. rewrite !Z.mul_1_r. reflexivity. Qed.

Lemma Qcompare_mult_r (x y t : Q) :
  (0 < t)%Q -> (x * t ?= y * t)%Q = (x ?= y)%Q.
Proof.
  intros Ht. destruct (Qcompare_spec x y) as [H|H|H].
  - apply (proj1 (Qeq_alt _ _)). rewrite H. reflexivity.
  - apply (proj1 (Qlt_alt _ _)). apply Qmult_lt_compat_r; assumption.
  - apply (proj1 (Qgt_alt _ _)). apply Qmult_lt_compat_r; assumption.
Qed.

Lemma Qcompare_opp (x y : Q) : (- x ?= - y)%Q = (y ?= x)%Q.
Proof.
  destruct (Qcompare_spec y x) as [H|H|H].
  - apply (proj1 (Qeq_alt _ _)). rewrite H. reflexivity.
  - apply (proj1 (Qlt_alt _ _)). lra.
  - apply (proj1 (Qgt_alt _ _)). lra.
Qed.

Lemma Dval_mag (x : Decimal.t) :
  (Dval x == if Decimal.sign x then - Dmag x else Dmag x)%Q.
Proof. unfold Dval, Dmag. destruct (Decimal.sign x); ring. Qed.

Lemma Dmag_pos (x : Decimal.t) : Decimal.is_zero x = false -> (0 < Dmag x)%Q.
Proof.
  unfold Decimal.is_zero, Dmag. intros H. apply N.eqb_neq in H.
  apply Qmult_lt_0_compat; [|apply Qpow10_pos].
  change 0%Q with (inject_Z 0). rewrite <- Zlt_Qlt. lia.
Qed.

Lemma Dmag_zero (x : Decimal.t) : Decimal.is_zero x = true -> (Dmag x == 0)%Q.
Proof.
  unfold Decimal.is_zero, Dmag. intros H. apply N.eqb_eq in H. rewrite H.
  simpl. ring.
Qed.

(** A magnitude written over a smaller exponent [m]. *)
Lemma Dmag_scaled (x : Decimal.t) (m : Z) :
  m <= Decimal.exp x ->
  (Dmag x == inject_Z (Z.of_N (Decimal.coeff x) * 10 ^ (Decimal.exp x - m)) * 10 ^ m)%Q.
Proof.
  intros Hm. unfold Dmag.
  rewrite inject_Z_mult, Qpow10_inject by lia.
  rewrite <- Qmult_assoc, <- Qpow10_add.
  replace (Decimal.exp x - m + m) with (Decimal.exp x) by lia. reflexivity.
Qed.

Lemma scaled_bounds (x : Decimal.t) (m : Z) :
  Decimal.is_zero x = false -> m <= Decimal.exp x ->
  10 ^ (Decimal.adjusted x - m)
  <= Z.of_N (Decimal.coeff x) * 10 ^ (Decimal.exp x - m)
  < 10 ^ (Decimal.adjusted x - m + 1).
Proof.
  intros Hz Hm. unfold Decimal.is_zero in Hz. apply N.eqb_neq in Hz.
  pose proof (ndigits_spec _ Hz) as [Hlo Hhi].
  pose proof (ndigits_pos (Decimal.coeff x)) as Hd.
  unfold Decimal.adjusted.
  set (d := Decimal.ndigits (Decimal.coeff x)) in *.
  set (e := Decimal.exp x) in *.
  replace (e + d - 1 - m) with ((d - 1) + (e - m)) by lia.
  replace (d - 1 + (e - m) + 1) with (d + (e - m)) by lia.
  rewrite !Z.pow_add_r by lia.
  pose proof (Zpow10_pos (e - m)).
  split; [apply Z.mul_le_mono_nonneg_r | apply Z.mul_lt_mono_pos_r]; lia.
Qed.

Lemma cmp_abs_Dmag (a b : Decimal.t) :
  Decimal.is_zero a = false -> Decimal.is_zero b = false ->
  Decimal.cmp_abs a b = (Dmag a ?= Dmag b)%Q.
Proof.
  intros Ha Hb.
  set (m := Z.min (Decimal.exp a) (Decimal.exp b)).
  rewrite (Dmag_scaled a m), (Dmag_scaled b m) by lia.
  rewrite Qcompare_mult_r by apply Qpow10_pos.
  rewrite Qcompare_inject_Z.
  pose proof (scaled_bounds a m Ha ltac:(lia)) as [Halo Hahi].
  pose proof (scaled_bounds b m Hb ltac:(lia)) as [Hblo Hbhi].
  assert (Hadj : forall x, Decimal.is_zero x = false -> m <= Decimal.exp x ->
                           0 <= Decimal.adjusted x - m).
  { intros x _ Hx. unfold Decimal.adjusted.
    pose proof (ndigits_pos (Decimal.coeff x)). lia. }
  pose proof (Hadj a Ha ltac:(lia)) as Ha0.
  pose proof (Hadj b Hb ltac:(lia)) as Hb0.
  unfold Decimal.cmp_abs.
  destruct (Z.compare_spec (Decimal.adjusted a) (Decimal.adjusted b)) as [He|Hlt|Hgt].
  - rewrite <- N2Z.inj_compare, !N2Z.inj_mul.
    destruct (Z_le_gt_dec (Decimal.exp a) (Decimal.exp b)) as [Hle|Hgt].
    + rewrite (pow10_nonpos (Decimal.exp a - Decimal.exp b)) by lia.
      rewrite pow10_Z by lia.
      replace m with (Decimal.exp a) by lia.
      rewrite Z.sub_diag. reflexivity.
    + rewrite (pow10_nonpos (Decimal.exp b - Decimal.exp a)) by lia.
      rewrite pow10_Z by lia.
      replace m with (Decimal.exp b) by lia.
      rewrite Z.sub_diag. reflexivity.
  - symmetry. apply Z.compare_lt_iff.
    pose proof (Zpow10_le (Decimal.adjusted a - m + 1) (Decimal.adjusted b - m)).
    lia.
  - symmetry. apply Z.compare_gt_iff.
    pose proof (Zpow10_le (Decimal.adjusted b - m + 1) (Decimal.adjusted a - m)).
    lia.
Qed.

(** Decimal._cmp compares the numbers the two decimals stand for. *)
Lemma cmp_Dval (a b : Decimal.t) : Decimal.cmp a b = (Dval a ?= Dval b)%Q.
Proof.
  unfold Decimal.cmp. rewrite (Dval_mag a), (Dval_mag b).
  destruct (Decimal.is_zero a) eqn:Ha, (Decimal.is_zero b) eqn:Hb.
  - pose proof (Dmag_zero a Ha) as Ea. pose proof (Dmag_zero b Hb) as Eb.
    symmetry. apply (proj1 (Qeq_alt _ _)).
    destruct (Decimal.sign a), (Decimal.sign b); rewrite Ea, Eb; reflexivity.
  - pose proof (Dmag_zero a Ha) as Ea. pose proof (Dmag_pos b Hb) as Pb.
    symmetry.
    destruct (Decimal.sign a), (Decimal.sign b); rewrite Ea;
      first [apply (proj1 (Qgt_alt _ _)); lra | apply (proj1 (Qlt_alt _ _)); lra].
  - pose proof (Dmag_pos a Ha) as Pa. pose proof (Dmag_zero b Hb) as Eb.
    symmetry.
    destruct (Decimal.sign a), (Decimal.sign b); rewrite Eb;
      first [apply (proj1 (Qgt_alt _ _)); lra | apply (proj1 (Qlt_alt _ _)); lra].
  - pose proof (Dmag_pos a Ha) as Pa. pose proof (Dmag_pos b Hb) as Pb.
    rewrite (cmp_abs_Dmag a b Ha Hb).
    destruct (Decimal.sign a), (Decimal.sign b).
    + rewrite Qcompare_opp. apply Qcompare_antisym.
    + symmetry. apply (proj1 (Qlt_alt _ _)). lra.
    + symmetry. apply (proj1 (Qgt_alt _ _)). lra.
    + reflexivity.
Qed.

Lemma ltb_Dval (a b : Decimal.t) : Decimal.ltb a b = true <-> (Dval a < Dval b)%Q.
Proof.
  unfold Decimal.ltb. rewrite cmp_Dval, Qlt_alt.
  destruct (Dval a ?= Dval b)%Q; intuition congruence.
Qed.

Lemma eqb_Dval (a b : Decimal.t) : Decimal.eqb a b = true <-> (Dval a == Dval b)%Q.
Proof.
  unfold Decimal.eqb. rewrite cmp_Dval, Qeq_alt.
  destruct (Dval a ?= Dval b)%Q; intuition congruence.
Qed.

Lemma ltb_Dval_false (a b : Decimal.t) :
  Decimal.ltb a b = false <-> (Dval b <= Dval a)%Q.
Proof.
  destruct (Decimal.ltb a b) eqn:H.
  - apply ltb_Dval in H. split; [discriminate | intros; lra].
  - split; [|reflexivity]. intros _.
    destruct (Qlt_le_dec (Dval a) (Dval b)) as [Hlt|Hle]; [|assumption].
    apply ltb_Dval in Hlt. congruence.
Qed.

Lemma eqb_Dval_false (a b : Decimal.t) :
  Decimal.eqb a b = false <-> ~ (Dval a == Dval b)%Q.
Proof.
  rewrite <- eqb_Dval. destruct (Decimal.eqb a b); intuition congruence.
Qed.

Section Fix.
Variable ctx : Decimal.context.
Hypothesis prec_pos : 1 <= Decimal.prec ctx.
Hypothesis range_ok : Decimal.Etiny ctx <= Decimal.Emax ctx.

Lemma N_div_pow10 (c : N) (k : Z) :
  0 <= k -> Z.of_N (c / Decimal.pow10 k) = Z.of_N c / 10 ^ k.
Proof. intros. rewrite N2Z.inj_div, pow10_Z by assumption. reflexivity. Qed.

Lemma N_mod_pow10 (c : N) (k : Z) :
  0 <= k -> Z.of_N (c mod Decimal.pow10 k) = Z.of_N c mod 10 ^ k.
Proof. intros. rewrite N2Z.inj_mod, pow10_Z by assumption. reflexivity. Qed.

Lemma fix_sign (x y : Decimal.t) :
  Decimal.fix_ ctx x = Ok y -> Decimal.sign y = Decimal.sign x.
Proof.
  unfold Decimal.fix_. destruct (Decimal.is_zero x).
  - intros [= <-]. reflexivity.
  - repeat match goal with
           | |- context [if ?b then _ else _] => destruct b
           | |- context [let '(_, _) := ?p in _] => destruct p
           end; intros [= <-]; reflexivity.
Qed.

Lemma fix_representable (x y : Decimal.t) :
  Decimal.fix_ ctx x = Ok y -> representable ctx y.
Proof.
  unfold Decimal.fix_, representable, Decimal.Etop in *.
  destruct (Decimal.is_zero x) eqn:Hz.
  { intros [= <-]. cbn. lia. }
  unfold Decimal.is_zero in Hz. apply N.eqb_neq in Hz.
  pose proof (ndigits_spec _ Hz) as [Hlo Hhi].
  pose proof (ndigits_pos (Decimal.coeff x)) as Hlen.
  set (len := Decimal.ndigits (Decimal.coeff x)) in *.
  set (P := Decimal.prec ctx) in *.
  destruct (Z.ltb_spec (Decimal.Emax ctx - P + 1) (len + Decimal.exp x - P)) as [|Hov];
    [discriminate|].
  set (exp_min := if len + Decimal.exp x - P <? Decimal.Etiny ctx
                  then Decimal.Etiny ctx else len + Decimal.exp x - P).
  assert (Hem : exp_min = Z.max (len + Decimal.exp x - P) (Decimal.Etiny ctx)).
  { subst exp_min. destruct (Z.ltb_spec (len + Decimal.exp x - P) (Decimal.Etiny ctx)); lia. }
  clearbody exp_min.
  destruct (Z.ltb_spec (Decimal.exp x) exp_min) as [Hround|Hkeep].
  2:{ intros [= <-]. unfold Decimal.is_zero.
      destruct (N.eqb_spec (Decimal.coeff x) 0); [contradiction|].
      fold len. lia. }
  destruct (Z.ltb_spec (len + Decimal.exp x - exp_min) 0) as [Hneg|Hnn].
  - (* every digit is dropped *)
    change (1 / Decimal.pow10 1)%N with 0%N.
    change (1 mod Decimal.pow10 1)%N with 1%N.
    change (Decimal.round_up_half_even 0 1 1) with false.
    cbn [andb].
    destruct (Z.ltb_spec (Decimal.Emax ctx - P + 1) exp_min); [discriminate|].
    intros [= <-]. cbn. lia.
  - set (k := len - (len + Decimal.exp x - exp_min)).
    assert (Hk : 1 <= k <= len) by lia.
    set (q := (Decimal.coeff x / Decimal.pow10 k)%N).
    set (r := (Decimal.coeff x mod Decimal.pow10 k)%N).
    assert (Hq : Z.of_N q < 10 ^ (len - k)).
    { subst q. rewrite N_div_pow10 by lia.
      apply Z.div_lt_upper_bound; [apply Zpow10_pos; lia|].
      rewrite <- Z.pow_add_r by lia. replace (k + (len - k)) with len by lia.
      assumption. }
    assert (HlenP : len - k <= P) by lia.
    pose proof (Zpow10_le (len - k) P ltac:(lia)) as HpP.
    clearbody q r.
    destruct (Decimal.round_up_half_even q r k) eqn:Hup; cbn [andb].
    + destruct (Z.ltb_spec P (Decimal.ndigits (q + 1))) as [Hcarry|Hfit].
      * assert (Hc1 : Z.of_N (q + 1) = 10 ^ P).
        { destruct (Z_lt_le_dec (Z.of_N (q + 1)) (10 ^ P)) as [Hlt|Hge].
          - pose proof (ndigits_le (q + 1) P ltac:(lia) Hlt). lia.
          - lia. }
        destruct (Z.ltb_spec (Decimal.Emax ctx - P + 1) (exp_min + 1)); [discriminate|].
        intros [= <-]. unfold Decimal.is_zero; cbn [Decimal.coeff Decimal.exp].
        assert (Hc2 : Z.of_N ((q + 1) / 10) = 10 ^ (P - 1)).
        { rewrite N2Z.inj_div, Hc1. change (Z.of_N 10) with 10.
          replace P with ((P - 1) + 1) at 1 by lia.
          rewrite Zpow10_succ by lia.
          rewrite Z.mul_comm, Z.div_mul by lia. reflexivity. }
        assert (Hd : Decimal.ndigits ((q + 1) / 10) = P).
        { apply ndigits_unique; [lia|]. rewrite Hc2.
          pose proof (Zpow10_lt (P - 1) P ltac:(lia)). lia. }
        destruct (N.eqb_spec ((q + 1) / 10) 0) as [E0|_].
        { rewrite E0 in Hc2. pose proof (Zpow10_pos (P - 1) ltac:(lia)).
          simpl in Hc2. lia. }
        rewrite Hd. lia.
      * destruct (Z.ltb_spec (Decimal.Emax ctx - P + 1) exp_min); [discriminate|].
        intros [= <-]. unfold Decimal.is_zero; cbn [Decimal.coeff Decimal.exp].
        destruct (N.eqb_spec (q + 1) 0); lia.
    + destruct (Z.ltb_spec (Decimal.Emax ctx - P + 1) exp_min); [discriminate|].
      intros [= <-]. unfold Decimal.is_zero; cbn [Decimal.coeff Decimal.exp].
      destruct (N.eqb_spec q 0); [lia|].
      pose proof (ndigits_le q P ltac:(lia) ltac:(lia)).
      lia.
Qed.

Lemma fix_of_representable (x : Decimal.t) :
  representable ctx x -> Decimal.fix_ ctx x = Ok x.
Proof.
  unfold representable, Decimal.fix_. destruct x as [s c e]. cbn.
  destruct (Decimal.is_zero _) eqn:Hz.
  - unfold Decimal.is_zero in Hz. cbn in Hz. apply N.eqb_eq in Hz. subst c.
    intros H. f_equal. f_equal. lia.
  - intros (Hd & He & Ht).
    destruct (Z.ltb_spec (Decimal.Etop ctx) (Decimal.ndigits c + e - Decimal.prec ctx));
      [lia|].
    destruct (Z.ltb_spec (Decimal.ndigits c + e - Decimal.prec ctx) (Decimal.Etiny ctx)).
    + destruct (Z.ltb_spec e (Decimal.Etiny ctx)); [lia|reflexivity].
    + destruct (Z.ltb_spec e (Decimal.ndigits c + e - Decimal.prec ctx)); [lia|reflexivity].
Qed.

Lemma representable_sign (s s' : bool) (c : N) (e : Z) :
  representable ctx (Decimal.mk s c e) -> representable ctx (Decimal.mk s' c e).
Proof. unfold representable, Decimal.is_zero. cbn. trivial. Qed.

Lemma div_representable (a b y : Decimal.t) :
  Decimal.div ctx a b = Ok y -> representable ctx y.
Proof.
  unfold Decimal.div.
  repeat match goal with
         | |- context [if ?b then _ else _] => destruct b
         | |- context [let '(_, _) := ?p in _] => destruct p
         end; try discriminate; apply fix_representable.
Qed.

Lemma mul_representable (a b y : Decimal.t) :
  Decimal.mul ctx a b = Ok y -> representable ctx y.
Proof. apply fix_representable. Qed.

End Fix.

(** *** Rounding to the precision of the context *)

(** What [round_up_half_even] decides, in integers: the kept part moves
    by at most half a unit of the last kept digit. *)
Lemma round_up_spec (q r : N) (k : Z) :
  1 <= k -> Z.of_N r < 10 ^ k ->
  if Decimal.round_up_half_even q r k
  then 10 ^ k <= 2 * Z.of_N r
  else 2 * Z.of_N r <= 10 ^ k.
Proof.
  intros Hk Hr. unfold Decimal.round_up_half_even.
  assert (Hh : Z.of_N (5 * Decimal.pow10 (k - 1)) * 2 = 10 ^ k).
  { rewrite N2Z.inj_mul, pow10_Z by lia. change (Z.of_N 5) with 5.
    replace k with ((k - 1) + 1) at 2 by lia. rewrite Zpow10_succ by lia. lia. }
  set (half := (5 * Decimal.pow10 (k - 1))%N) in *.
  destruct (N.eqb_spec r half) as [->|Hne].
  - destruct (N.odd q); lia.
  - destruct (N.ltb_spec half r); lia.
Qed.

Section FixValue.
Variable ctx : Decimal.context.
Hypothesis prec_pos : 1 <= Decimal.prec ctx.

(** The result of [_fix] on a number that has too many digits and whose
    rounded value stays normal. *)
Lemma fix_round (x : Decimal.t) :
  let len := Decimal.ndigits (Decimal.coeff x) in
  let k := len - Decimal.prec ctx in
  let q := (Decimal.coeff x / Decimal.pow10 k)%N in
  let r := (Decimal.coeff x mod Decimal.pow10 k)%N in
  let R := if Decimal.round_up_half_even q r k then (q + 1)%N else q in
  Decimal.coeff x <> 0%N ->
  1 <= k ->
  Decimal.Etiny ctx <= Decimal.exp x + k < Decimal.Etop ctx ->
  exists y, Decimal.fix_ ctx x = Ok y /\ Decimal.sign y = Decimal.sign x /\
    Decimal.coeff y <> 0%N /\
    Z.of_N (Decimal.coeff y) * 10 ^ (Decimal.exp y - (Decimal.exp x + k)) = Z.of_N R /\
    Decimal.exp x + k <= Decimal.exp y /\
    Decimal.adjusted x <= Decimal.adjusted y <= Decimal.adjusted x + 1 /\
    10 ^ (Decimal.prec ctx - 1) <= Z.of_N q < 10 ^ Decimal.prec ctx.
Proof.
  intros len k q r R Hz Hk Hrange.
  pose proof (ndigits_spec _ Hz) as [Hlo Hhi]. fold len in Hlo, Hhi.
  set (P := Decimal.prec ctx) in *.
  assert (Hq : 10 ^ (P - 1) <= Z.of_N q < 10 ^ P).
  { subst q. rewrite N_div_pow10 by lia. split.
    - apply Z.div_le_lower_bound; [apply Zpow10_pos; lia|].
      rewrite <- Z.pow_add_r by lia. replace (k + (P - 1)) with (len - 1) by lia.
      assumption.
    - apply Z.div_lt_upper_bound; [apply Zpow10_pos; lia|].
      rewrite <- Z.pow_add_r by lia. replace (k + P) with len by lia. assumption. }
  unfold Decimal.fix_, Decimal.is_zero.
  destruct (N.eqb_spec (Decimal.coeff x) 0) as [|_]; [contradiction|].
  fold len. fold P. replace (len + Decimal.exp x - P) with (Decimal.exp x + k) by lia.
  destruct (Z.ltb_spec (Decimal.Etop ctx) (Decimal.exp x + k)) as [|_]; [lia|].
  destruct (Z.ltb_spec (Decimal.exp x + k) (Decimal.Etiny ctx)) as [|_]; [lia|].
  destruct (Z.ltb_spec (Decimal.exp x) (Decimal.exp x + k)) as [_|]; [|lia].
  replace (len + Decimal.exp x - (Decimal.exp x + k)) with P by lia.
  destruct (Z.ltb_spec P 0) as [|_]; [lia|].
  replace (len - P) with k by lia. fold q r.
  assert (Hadj : forall c e, Decimal.ndigits c = P ->
            Decimal.adjusted (Decimal.mk (Decimal.sign x) c e) = e + P - 1).
  { intros c e Hc. unfold Decimal.adjusted. cbn. lia. }
  assert (Hax : Decimal.adjusted x = Decimal.exp x + k + P - 1).
  { unfold Decimal.adjusted. fold len. lia. }
  subst R. destruct (Decimal.round_up_half_even q r k) eqn:Hup; cbn [andb].
  - destruct (Z.ltb_spec P (Decimal.ndigits (q + 1))) as [Hcarry|Hfit].
    + assert (Hc1 : Z.of_N (q + 1) = 10 ^ P).
      { destruct (Z_lt_le_dec (Z.of_N (q + 1)) (10 ^ P)) as [Hlt|Hge]; [|lia].
        pose proof (ndigits_le (q + 1) P ltac:(lia) Hlt). lia. }
      assert (Hc2 : Z.of_N ((q + 1) / 10) = 10 ^ (P - 1)).
      { rewrite N2Z.inj_div, Hc1. change (Z.of_N 10) with 10.
        replace P with ((P - 1) + 1) at 1 by lia.
        rewrite Zpow10_succ by lia.
        rewrite Z.mul_comm, Z.div_mul by lia. reflexivity. }
      assert (Hd : Decimal.ndigits ((q + 1) / 10) = P).
      { apply ndigits_unique; [lia|]. rewrite Hc2.
        pose proof (Zpow10_lt (P - 1) P ltac:(lia)). lia. }
      destruct (Z.ltb_spec (Decimal.Etop ctx) (Decimal.exp x + k + 1)) as [|_]; [lia|].
      eexists. split; [reflexivity|]. cbn [Decimal.sign Decimal.coeff Decimal.exp].
      split; [reflexivity|]. split.
      { intros E0. rewrite E0 in Hc2. pose proof (Zpow10_pos (P - 1) ltac:(lia)).
        simpl in Hc2. lia. }
      split.
      { rewrite Hc2, Hc1. replace (Decimal.exp x + k + 1 - (Decimal.exp x + k)) with 1 by lia.
        replace P with ((P - 1) + 1) at 2 by lia. rewrite Zpow10_succ by lia. lia. }
      split; [lia|]. split; [|assumption].
      rewrite Hadj by assumption. lia.
    + destruct (Z.ltb_spec (Decimal.Etop ctx) (Decimal.exp x + k)) as [|_]; [lia|].
      eexists. split; [reflexivity|]. cbn [Decimal.sign Decimal.coeff Decimal.exp].
      split; [reflexivity|]. split; [lia|].
      split; [rewrite Z.sub_diag; lia|].
      split; [lia|]. split; [|assumption].
      assert (Hd : Decimal.ndigits (q + 1) = P).
      { pose proof (ndigits_ge (q + 1) (P - 1) ltac:(lia)). lia. }
      rewrite Hadj by assumption. lia.
  - destruct (Z.ltb_spec (Decimal.Etop ctx) (Decimal.exp x + k)) as [|_]; [lia|].
    eexists. split; [reflexivity|]. cbn [Decimal.sign Decimal.coeff Decimal.exp].
    split; [reflexivity|]. split.
    { intros E0. rewrite E0 in Hq. pose proof (Zpow10_pos (P - 1) ltac:(lia)).
      simpl in Hq. lia. }
    split; [rewrite Z.sub_diag; lia|].
    split; [lia|]. split; [|assumption].
    assert (Hd : Decimal.ndigits q = P).
    { apply ndigits_unique; [lia|assumption]. }
    rewrite Hadj by assumption. lia.
Qed.

End FixValue.

Lemma half_unit_above (X d r0 T : Z) :
  1 <= X -> 2 * X <= T -> 0 < r0 < d -> 2 * Z.abs (X * d - r0) <= T * d.
Proof.
  intros HX HT Hr.
  assert (H1 : 1 * d <= X * d) by (apply Z.mul_le_mono_nonneg_r; lia).
  assert (H2 : 2 * X * d <= T * d) by (apply Z.mul_le_mono_nonneg_r; lia).
  rewrite Z.abs_eq by lia. lia.
Qed.

Lemma half_unit_below (Y d r0 T : Z) :
  0 <= Y -> 2 * (Y + 1) <= T -> 0 < r0 < d -> 2 * Z.abs (- (Y * d + r0)) <= T * d.
Proof.
  intros HY HT Hr.
  assert (H1 : 0 <= Y * d) by (apply Z.mul_nonneg_nonneg; lia).
  assert (H2 : 2 * (Y + 1) * d <= T * d) by (apply Z.mul_le_mono_nonneg_r; lia).
  rewrite Z.abs_opp, Z.abs_eq by lia. lia.
Qed.

(** Dropping [k] digits with round-half-even moves a coefficient by at
    most half a unit of the last kept digit. *)
Lemma round_core (c : N) (k : Z) :
  1 <= k ->
  let q := (c / Decimal.pow10 k)%N in
  let r := (c mod Decimal.pow10 k)%N in
  let R := if Decimal.round_up_half_even q r k then (q + 1)%N else q in
  2 * Z.abs (Z.of_N R * 10 ^ k - Z.of_N c) <= 10 ^ k /\
  Z.of_N q * 10 ^ k <= Z.of_N c.
Proof.
  intros Hk q r R.
  pose proof (Zpow10_pos k ltac:(lia)) as HT.
  assert (Hc : Z.of_N c = 10 ^ k * Z.of_N q + Z.of_N r).
  { subst q r. rewrite N_div_pow10, N_mod_pow10 by lia. apply Z.div_mod. lia. }
  assert (Hr : 0 <= Z.of_N r < 10 ^ k).
  { subst r. rewrite N_mod_pow10 by lia. apply Z.mod_pos_bound. assumption. }
  pose proof (round_up_spec q r k Hk ltac:(lia)) as Hup.
  subst R. set (T := 10 ^ k) in *. set (M := T * Z.of_N q) in *.
  destruct (Decimal.round_up_half_even q r k).
  - rewrite N2Z.inj_add. change (Z.of_N 1) with 1.
    replace ((Z.of_N q + 1) * T) with (M + T) by (subst M; ring).
    replace (Z.of_N q * T) with M by (subst M; ring). lia.
  - replace (Z.of_N q * T) with M by (subst M; ring). lia.
Qed.

(** The same when the coefficient is a quotient [n / d] that is not exact
    and carries the sticky digit of __truediv__: the rounded value is
    within half a unit of the true quotient. *)
Lemma round_sticky (c : N) (n d k : Z) :
  0 < d -> 0 <= n -> 0 < n mod d -> 1 <= k ->
  Z.of_N c = (if n / d mod 5 =? 0 then n / d + 1 else n / d) ->
  let q := (c / Decimal.pow10 k)%N in
  let r := (c mod Decimal.pow10 k)%N in
  let R := if Decimal.round_up_half_even q r k then (q + 1)%N else q in
  2 * Z.abs (Z.of_N R * 10 ^ k * d - n) <= 10 ^ k * d /\
  Z.of_N q * 10 ^ k * d <= n.
Proof.
  intros Hd Hn Hrem Hk Hcq q r R.
  pose proof (Zpow10_pos (k - 1) ltac:(lia)) as Ht.
  assert (HT : 10 ^ k = 10 * 10 ^ (k - 1)).
  { replace k with ((k - 1) + 1) at 1 by lia. apply Zpow10_succ. lia. }
  assert (Hc : Z.of_N c = 10 ^ k * Z.of_N q + Z.of_N r).
  { subst q r. rewrite N_div_pow10, N_mod_pow10 by lia. apply Z.div_mod. lia. }
  assert (Hr : 0 <= Z.of_N r < 10 ^ k).
  { subst r. rewrite N_mod_pow10 by lia. apply Z.mod_pos_bound. lia. }
  pose proof (round_up_spec q r k Hk ltac:(lia)) as Hup.
  pose proof (Z.div_mod n d ltac:(lia)) as Hnd.
  pose proof (Z.mod_pos_bound n d Hd) as Hrd.
  assert (Hq0 : 0 <= n / d) by (apply Z.div_pos; lia).
  set (q0 := n / d) in *. set (r0 := n mod d) in *.
  set (t := 10 ^ (k - 1)) in *. set (T := 10 ^ k) in *.
  set (z := Z.of_N q * t).
  assert (Hqz : Z.of_N q * T = 10 * z) by (subst z; rewrite HT; ring).
  assert (Hcz : Z.of_N c = 10 * z + Z.of_N r) by (rewrite Hc, <- Hqz; ring).
  assert (Hz : 0 <= z) by (subst z; apply Z.mul_nonneg_nonneg; lia).
  assert (Hdq : 0 <= d * q0) by (apply Z.mul_nonneg_nonneg; lia).
  subst R. clearbody q r t T z q0 r0. clear Hc.
  assert (Hne : Z.of_N r <> 0 /\ 2 * Z.of_N r <> T /\
                (Z.of_N c = q0 + 1 \/ Z.of_N c = q0)).
  { destruct (Z.eqb_spec (q0 mod 5) 0) as [E|E]; cbv iota in Hcq;
      Z.to_euclidean_division_equations; lia. }
  destruct Hne as (Hr0 & Hrh & Hcases).
  assert (Hlow : 10 * z * d <= n).
  { assert (10 * z <= q0) by lia.
    assert (10 * z * d <= q0 * d) by (apply Z.mul_le_mono_nonneg_r; lia).
    lia. }
  split; [|rewrite Hqz; exact Hlow].
  destruct (Decimal.round_up_half_even q r k).
  - rewrite N2Z.inj_add. change (Z.of_N 1) with 1.
    destruct Hcases as [Hc1|Hc1].
    + replace ((Z.of_N q + 1) * T * d - n)
        with ((T - Z.of_N r + 1) * d - r0)
        by (rewrite Hnd; replace q0 with (10 * z + Z.of_N r - 1) by lia;
            rewrite <- Hqz; ring).
      apply half_unit_above; lia.
    + replace ((Z.of_N q + 1) * T * d - n)
        with ((T - Z.of_N r) * d - r0)
        by (rewrite Hnd; replace q0 with (10 * z + Z.of_N r) by lia;
            rewrite <- Hqz; ring).
      apply half_unit_above; lia.
  - destruct Hcases as [Hc1|Hc1].
    + replace (Z.of_N q * T * d - n)
        with (- ((Z.of_N r - 1) * d + r0))
        by (rewrite Hnd; replace q0 with (10 * z + Z.of_N r - 1) by lia;
            rewrite <- Hqz; ring).
      apply half_unit_below; lia.
    + replace (Z.of_N q * T * d - n)
        with (- (Z.of_N r * d + r0))
        by (rewrite Hnd; replace q0 with (10 * z + Z.of_N r) by lia;
            rewrite <- Hqz; ring).
      apply half_unit_below; lia.
Qed.

Lemma rel_bound_Q (D c : Z) (t : Q) :
  (0 < t)%Q -> 20000000 * Z.abs D <= c ->
  (Qabs (inject_Z D * t) <= unit_roundoff * (inject_Z c * t))%Q.
Proof.
  intros Ht H.
  assert (H1 : (inject_Z 20000000 * inject_Z D <= inject_Z c)%Q).
  { rewrite <- inject_Z_mult, <- Zle_Qle. lia. }
  assert (H2 : (inject_Z (- c) <= inject_Z 20000000 * inject_Z D)%Q).
  { rewrite <- inject_Z_mult, <- Zle_Qle. lia. }
  rewrite inject_Z_opp in H2.
  change (inject_Z 20000000) with (20000000 # 1)%Q in *.
  set (a := inject_Z D) in *. set (b := inject_Z c) in *. clearbody a b.
  unfold unit_roundoff.
  apply Qabs_Qle_condition. split.
  - setoid_replace (- ((1 # 20000000) * (b * t)))%Q
      with ((- ((1 # 20000000) * b)) * t)%Q by ring.
    apply Qmult_le_compat_r; lra.
  - setoid_replace ((1 # 20000000) * (b * t))%Q
      with (((1 # 20000000) * b) * t)%Q by ring.
    apply Qmult_le_compat_r; lra.
Qed.

Lemma Dmag_diff (x y : Decimal.t) (m : Z) (cx cy : Z) :
  m <= Decimal.exp x -> m <= Decimal.exp y ->
  Z.of_N (Decimal.coeff x) * 10 ^ (Decimal.exp x - m) = cx ->
  Z.of_N (Decimal.coeff y) * 10 ^ (Decimal.exp y - m) = cy ->
  (Dmag y - Dmag x == inject_Z (cy - cx) * 10 ^ m)%Q.
Proof.
  intros Hx Hy Ex Ey.
  rewrite (Dmag_scaled x m Hx), (Dmag_scaled y m Hy), Ex, Ey.
  unfold Zminus. rewrite inject_Z_plus, inject_Z_opp. ring.
Qed.

(** [_fix] on a nonzero number in the normal range: the result is within
    one unit roundoff of the number. *)
Lemma fix_value (x : Decimal.t) :
  Decimal.coeff x <> 0%N ->
  Decimal.Emin decimal_getcontext <= Decimal.adjusted x < Decimal.Emax decimal_getcontext ->
  exists y, Decimal.fix_ decimal_getcontext x = Ok y /\ Decimal.sign y = Decimal.sign x /\
    Decimal.coeff y <> 0%N /\
    (Qabs (Dmag y - Dmag x) <= unit_roundoff * Dmag x)%Q /\
    Decimal.adjusted x <= Decimal.adjusted y <= Decimal.adjusted x + 1.
Proof.
  intros Hz Hadj.
  change (Decimal.Emin decimal_getcontext) with (-999999) in Hadj.
  change (Decimal.Emax decimal_getcontext) with 999999 in Hadj.
  pose proof (ndigits_pos (Decimal.coeff x)) as Hlen.
  assert (Hax : Decimal.adjusted x
                = Decimal.exp x + Decimal.ndigits (Decimal.coeff x) - 1) by reflexivity.
  destruct (Z_le_gt_dec (Decimal.ndigits (Decimal.coeff x)) 8) as [Hfew|Hmany].
  - exists x. split.
    { apply fix_of_representable. unfold representable, Decimal.is_zero.
      destruct (N.eqb_spec (Decimal.coeff x) 0); [contradiction|].
      change (Decimal.prec decimal_getcontext) with 8. change (Decimal.Etiny decimal_getcontext) with (-1000006).
      change (Decimal.Etop decimal_getcontext) with 999992. lia. }
    split; [reflexivity|]. split; [assumption|]. split; [|lia].
    setoid_replace (Dmag x - Dmag x)%Q with 0%Q by ring.
    assert (0 < Dmag x)%Q.
    { apply Dmag_pos. unfold Decimal.is_zero. apply N.eqb_neq. assumption. }
    unfold unit_roundoff. simpl Qabs. 
    change (Qabs 0) with 0%Q. lra.
  - set (k := Decimal.ndigits (Decimal.coeff x) - 8).
    destruct (fix_round decimal_getcontext ltac:(cbn; lia) x Hz) as (y & Hy & Hs & Hny & Hc & He & Ha & Hq).
    { change (Decimal.prec decimal_getcontext) with 8. lia. }
    { change (Decimal.prec decimal_getcontext) with 8. change (Decimal.Etiny decimal_getcontext) with (-1000006).
      change (Decimal.Etop decimal_getcontext) with 999992. lia. }
    change (Decimal.prec decimal_getcontext) with 8 in *. fold k in Hc, He, Hq.
    exists y. repeat (split; [assumption|]). split; [|assumption].
    destruct (round_core (Decimal.coeff x) k ltac:(lia)) as [Hr1 Hr2].
    set (q := (Decimal.coeff x / Decimal.pow10 k)%N) in *.
    set (r := (Decimal.coeff x mod Decimal.pow10 k)%N) in *.
    set (R := if Decimal.round_up_half_even q r k then (q + 1)%N else q) in *.
    pose proof (Zpow10_pos k ltac:(lia)) as HT.
    rewrite (Dmag_diff x y (Decimal.exp x) (Z.of_N (Decimal.coeff x)) (Z.of_N R * 10 ^ k)).
    + unfold Dmag. apply rel_bound_Q; [apply Qpow10_pos|].
      change (8 - 1) with 7 in Hq. change (10 ^ 7) with 10000000 in Hq.
      assert (10000000 * 10 ^ k <= Z.of_N q * 10 ^ k)
        by (apply Z.mul_le_mono_nonneg_r; lia).
      lia.
    + lia.
    + lia.
    + rewrite Z.sub_diag. simpl. lia.
    + replace (Decimal.exp y - Decimal.exp x)
        with ((Decimal.exp y - (Decimal.exp x + k)) + k) by lia.
      rewrite Z.pow_add_r by lia. rewrite Z.mul_assoc, Hc. reflexivity.
Qed.

Lemma Zpow10_lt_inv (a b : Z) : 0 <= b -> 10 ^ a < 10 ^ b -> a < b.
Proof.
  intros Hb H. destruct (Z_lt_le_dec a b) as [|Hge]; [assumption|].
  pose proof (Zpow10_le b a ltac:(lia)). lia.
Qed.

Lemma nonzero_is_zero (x : Decimal.t) :
  Decimal.coeff x <> 0%N -> Decimal.is_zero x = false.
Proof. intros H. unfold Decimal.is_zero. apply N.eqb_neq. assumption. Qed.

(** The digits of a product. *)
Lemma adjusted_mul (s : bool) (a b : Decimal.t) :
  Decimal.coeff a <> 0%N -> Decimal.coeff b <> 0%N ->
  let x := Decimal.mk s (Decimal.coeff a * Decimal.coeff b) (Decimal.exp a + Decimal.exp b) in
  Decimal.adjusted a + Decimal.adjusted b <= Decimal.adjusted x
  <= Decimal.adjusted a + Decimal.adjusted b + 1.
Proof.
  intros Ha Hb x. unfold Decimal.adjusted. cbn [Decimal.coeff Decimal.exp x].
  pose proof (ndigits_spec _ Ha) as [Hal Hah].
  pose proof (ndigits_spec _ Hb) as [Hbl Hbh].
  pose proof (ndigits_pos (Decimal.coeff a)) as Hla.
  pose proof (ndigits_pos (Decimal.coeff b)) as Hlb.
  set (la := Decimal.ndigits (Decimal.coeff a)) in *.
  set (lb := Decimal.ndigits (Decimal.coeff b)) in *.
  pose proof (Zpow10_pos (la - 1) ltac:(lia)).
  pose proof (Zpow10_pos (lb - 1) ltac:(lia)).
  assert (H1 : 10 ^ (la + lb - 2) <= Z.of_N (Decimal.coeff a * Decimal.coeff b)).
  { rewrite N2Z.inj_mul. replace (la + lb - 2) with ((la - 1) + (lb - 1)) by lia.
    rewrite Z.pow_add_r by lia. apply Z.mul_le_mono_nonneg; lia. }
  assert (H2 : Z.of_N (Decimal.coeff a * Decimal.coeff b) < 10 ^ (la + lb)).
  { rewrite N2Z.inj_mul, Z.pow_add_r by lia. apply Z.mul_lt_mono_nonneg; lia. }
  pose proof (ndigits_ge _ _ H1). pose proof (ndigits_le _ (la + lb) ltac:(lia) H2).
  lia.
Qed.

Lemma Dmag_mul (s : bool) (a b : Decimal.t) :
  (Dmag (Decimal.mk s (Decimal.coeff a * Decimal.coeff b) (Decimal.exp a + Decimal.exp b))
   == Dmag a * Dmag b)%Q.
Proof.
  unfold Dmag. cbn [Decimal.coeff Decimal.exp].
  rewrite N2Z.inj_mul, inject_Z_mult, Qpow10_add. ring.
Qed.

(** Multiplication of two positive numbers whose product is in the normal
    range. *)
Lemma mul_value (a b : Decimal.t) :
  Decimal.sign a = false -> Decimal.sign b = false ->
  Decimal.coeff a <> 0%N -> Decimal.coeff b <> 0%N ->
  Decimal.Emin decimal_getcontext <= Decimal.adjusted a + Decimal.adjusted b ->
  Decimal.adjusted a + Decimal.adjusted b + 1 < Decimal.Emax decimal_getcontext ->
  exists c, Decimal.mul decimal_getcontext a b = Ok c /\ Decimal.sign c = false /\
    Decimal.coeff c <> 0%N /\ Decimal.ndigits (Decimal.coeff c) <= 8 /\
    (Qabs (Dmag c - Dmag a * Dmag b) <= unit_roundoff * (Dmag a * Dmag b))%Q /\
    Decimal.adjusted a + Decimal.adjusted b <= Decimal.adjusted c
    <= Decimal.adjusted a + Decimal.adjusted b + 2.
Proof.
  intros Hsa Hsb Ha Hb Hlo Hhi. unfold Decimal.mul.
  pose proof (adjusted_mul (xorb (Decimal.sign a) (Decimal.sign b)) a b Ha Hb) as Hadj.
  cbv zeta in Hadj. set (x := Decimal.mk _ _ _) in *.
  assert (Hx : Decimal.coeff x <> 0%N) by (subst x; cbn; lia).
  destruct (fix_value x Hx ltac:(lia)) as (c & Hc & Hs & Hnc & Hv & Hac).
  exists c. split; [assumption|].
  split; [rewrite Hs; subst x; cbn; rewrite Hsa, Hsb; reflexivity|].
  split; [assumption|]. split.
  { pose proof (fix_representable decimal_getcontext ltac:(cbn; lia) ltac:(cbv; discriminate) _ _ Hc) as Hr.
    unfold representable in Hr. rewrite nonzero_is_zero in Hr by assumption.
    apply Hr. }
  split; [|lia].
  pose proof (Dmag_mul (xorb (Decimal.sign a) (Decimal.sign b)) a b) as Hm.
  fold x in Hm. rewrite <- Hm. exact Hv.
Qed.

Lemma strip_zeros_value (fuel : nat) (c : N) (e ideal : Z) (c' : N) (e' : Z) :
  Decimal.strip_zeros fuel c e ideal = (c', e') -> c <> 0%N ->
  c' <> 0%N /\ e <= e' /\ Z.of_N c' * 10 ^ (e' - e) = Z.of_N c.
Proof.
  revert c e. induction fuel as [|f IH]; intros c e; cbn [Decimal.strip_zeros].
  - intros [= <- <-] Hc. rewrite Z.sub_diag. simpl. split; [assumption|]. lia.
  - destruct ((e <? ideal) && (c mod 10 =? 0)%N) eqn:Hcond.
    + apply andb_true_iff in Hcond. destruct Hcond as [_ Hm].
      apply N.eqb_eq in Hm. intros Hs Hc.
      assert (Hdiv : Z.of_N c = 10 * Z.of_N (c / 10)).
      { rewrite N2Z.inj_div. change (Z.of_N 10) with 10.
        assert (Z.of_N c mod 10 = 0).
        { change 10 with (Z.of_N 10). rewrite <- N2Z.inj_mod, Hm. reflexivity. }
        Z.to_euclidean_division_equations. lia. }
      destruct (IH _ _ Hs ltac:(lia)) as (Hc' & He & Hv).
      split; [assumption|]. split; [lia|].
      replace (e' - e) with ((e' - (e + 1)) + 1) by lia.
      rewrite Zpow10_succ by lia. lia.
    + intros [= <- <-] Hc. rewrite Z.sub_diag. simpl. split; [assumption|]. lia.
Qed.

(** The scaled quotient that __truediv__ computes has nine or ten digits. *)
Lemma quotient_bounds (n d L : Z) :
  1 <= L -> 10 ^ (L + 8) <= n < 10 ^ (L + 9) -> 10 ^ (L - 1) <= d < 10 ^ L ->
  100000000 <= n / d < 10000000000.
Proof.
  intros HL [Hn1 Hn2] [Hd1 Hd2].
  pose proof (Zpow10_pos (L - 1) ltac:(lia)) as HB.
  assert (El : 10 ^ L = 10 * 10 ^ (L - 1)).
  { replace L with ((L - 1) + 1) at 1 by lia. apply Zpow10_succ. lia. }
  assert (E8 : 10 ^ (L + 8) = 100000000 * (10 * 10 ^ (L - 1))).
  { replace (L + 8) with (8 + ((L - 1) + 1)) by lia.
    rewrite Z.pow_add_r, Zpow10_succ by lia. reflexivity. }
  assert (E9 : 10 ^ (L + 9) = 10000000000 * 10 ^ (L - 1)).
  { replace (L + 9) with (10 + (L - 1)) by lia.
    rewrite Z.pow_add_r by lia. reflexivity. }
  split.
  - apply Z.div_le_lower_bound; [lia|].
    assert (d * 100000000 <= 100000000 * (10 * 10 ^ (L - 1))).
    { rewrite Z.mul_comm. apply Z.mul_le_mono_nonneg_l; lia. }
    lia.
  - apply Z.div_lt_upper_bound; [lia|].
    assert (10000000000 * 10 ^ (L - 1) <= d * 10000000000).
    { rewrite (Z.mul_comm d). apply Z.mul_le_mono_nonneg_l; lia. }
    lia.
Qed.

Lemma scaled_digits (c : N) (s : Z) :
  c <> 0%N -> 0 <= s ->
  10 ^ (Decimal.ndigits c - 1 + s) <= Z.of_N c * 10 ^ s < 10 ^ (Decimal.ndigits c + s).
Proof.
  intros Hc Hs. pose proof (ndigits_spec _ Hc) as [Hl Hh].
  pose proof (ndigits_pos c). pose proof (Zpow10_pos s Hs).
  rewrite !Z.pow_add_r by lia.
  split; [apply Z.mul_le_mono_nonneg_r | apply Z.mul_lt_mono_pos_r]; lia.
Qed.

Lemma adjusted_from_scaled (x : Decimal.t) (m v : Z) :
  Decimal.coeff x <> 0%N -> m <= Decimal.exp x ->
  Z.of_N (Decimal.coeff x) * 10 ^ (Decimal.exp x - m) = v ->
  100000000 <= v < 10000000000 ->
  m + 8 <= Decimal.adjusted x <= m + 9.
Proof.
  intros Hx Hm Hv Hb.
  pose proof (scaled_bounds x m (nonzero_is_zero x Hx) Hm) as [Hlo Hhi].
  rewrite Hv in Hlo, Hhi.
  assert (H0 : 0 <= Decimal.adjusted x - m).
  { unfold Decimal.adjusted. pose proof (ndigits_pos (Decimal.coeff x)). lia. }
  assert (H1 : Decimal.adjusted x - m < 10).
  { apply Zpow10_lt_inv; [lia|]. change (10 ^ 10) with 10000000000. lia. }
  assert (H2 : 8 < Decimal.adjusted x - m + 1).
  { apply Zpow10_lt_inv; [lia|]. change (10 ^ 8) with 100000000. lia. }
  lia.
Qed.

(** Division of two positive numbers when the quotient is in the normal
    range: the result times the divisor is within one unit roundoff of
    the dividend. *)
Lemma div_value (a b : Decimal.t) :
  Decimal.sign a = false -> Decimal.sign b = false ->
  Decimal.coeff a <> 0%N -> Decimal.coeff b <> 0%N ->
  Decimal.Emin decimal_getcontext <= Decimal.adjusted a - Decimal.adjusted b - 1 ->
  Decimal.adjusted a - Decimal.adjusted b < Decimal.Emax decimal_getcontext ->
  exists r, Decimal.div decimal_getcontext a b = Ok r /\ Decimal.sign r = false /\
    Decimal.coeff r <> 0%N /\
    (Qabs (Dmag r * Dmag b - Dmag a) <= unit_roundoff * Dmag a)%Q.
Proof.
  intros Hsa Hsb Ha Hb Hlo Hhi.
  change (Decimal.Emin decimal_getcontext) with (-999999) in Hlo.
  change (Decimal.Emax decimal_getcontext) with 999999 in Hhi.
  unfold Decimal.div.
  rewrite (nonzero_is_zero b Hb), (nonzero_is_zero a Ha).
  change (Decimal.prec decimal_getcontext) with 8.
  pose proof (ndigits_pos (Decimal.coeff a)) as Hpa.
  pose proof (ndigits_pos (Decimal.coeff b)) as Hpb.
  set (shift := Decimal.ndigits (Decimal.coeff b) - Decimal.ndigits (Decimal.coeff a) + 8 + 1).
  set (e := Decimal.exp a - Decimal.exp b - shift).
  assert (He : e + 8 = Decimal.adjusted a - Decimal.adjusted b - 1).
  { subst e shift. unfold Decimal.adjusted. lia. }
  set (n := if 0 <=? shift then (Decimal.coeff a * Decimal.pow10 shift)%N
            else Decimal.coeff a).
  set (d := if 0 <=? shift then Decimal.coeff b
            else (Decimal.coeff b * Decimal.pow10 (- shift))%N).
  set (sp := Z.max shift 0). set (sm := Z.max (- shift) 0).
  assert (Hn : Z.of_N n = Z.of_N (Decimal.coeff a) * 10 ^ sp).
  { subst n sp. destruct (Z.leb_spec 0 shift).
    - rewrite N2Z.inj_mul, pow10_Z by lia. rewrite Z.max_l by lia. reflexivity.
    - rewrite Z.max_r by lia. simpl. lia. }
  assert (Hdv : Z.of_N d = Z.of_N (Decimal.coeff b) * 10 ^ sm).
  { subst d sm. destruct (Z.leb_spec 0 shift).
    - rewrite Z.max_r by lia. simpl. lia.
    - rewrite N2Z.inj_mul, pow10_Z by lia. rewrite Z.max_l by lia. reflexivity. }
  assert (Hsps : 0 <= sp /\ 0 <= sm /\ sp - sm = shift) by (subst sp sm; lia).
  clearbody n d sp sm. destruct Hsps as (Hsp & Hsm & Hss).
  assert (Hq0 : Z.of_N (n / d) = Z.of_N n / Z.of_N d) by apply N2Z.inj_div.
  assert (Hr0 : Z.of_N (n mod d) = Z.of_N n mod Z.of_N d) by apply N2Z.inj_mod.
  pose proof (scaled_digits _ sp Ha Hsp) as Hnb. rewrite <- Hn in Hnb.
  pose proof (scaled_digits _ sm Hb Hsm) as Hdb. rewrite <- Hdv in Hdb.
  assert (Hqb : 100000000 <= Z.of_N n / Z.of_N d < 10000000000).
  { apply (quotient_bounds _ _ (Decimal.ndigits (Decimal.coeff b) + sm)); [lia| |].
    - replace (Decimal.ndigits (Decimal.coeff b) + sm + 8)
        with (Decimal.ndigits (Decimal.coeff a) - 1 + sp) by (subst shift; lia).
      replace (Decimal.ndigits (Decimal.coeff b) + sm + 9)
        with (Decimal.ndigits (Decimal.coeff a) + sp) by (subst shift; lia).
      assumption.
    - replace (Decimal.ndigits (Decimal.coeff b) + sm - 1)
        with (Decimal.ndigits (Decimal.coeff b) - 1 + sm) by lia.
      assumption. }
  rewrite <- Hq0 in Hqb.
  assert (Hd : 0 < Z.of_N d).
  { pose proof (Zpow10_pos (Decimal.ndigits (Decimal.coeff b) - 1 + sm) ltac:(lia)). lia. }
  pose proof (Z.div_mod (Z.of_N n) (Z.of_N d) ltac:(lia)) as Hdm.
  pose proof (Z.mod_pos_bound (Z.of_N n) (Z.of_N d) Hd) as Hmb.
  set (eb := Decimal.exp b - sm).
  (* dividend and divisor, over the exponent of the quotient *)
  assert (HA : (Dmag a == inject_Z (Z.of_N n) * 10 ^ (e + eb))%Q).
  { unfold Dmag. rewrite Hn, inject_Z_mult, Qpow10_inject by lia.
    rewrite <- Qmult_assoc, <- Qpow10_add.
    replace (sp + (e + eb)) with (Decimal.exp a) by (subst e eb; lia).
    reflexivity. }
  assert (HBd : (Dmag b == inject_Z (Z.of_N d) * 10 ^ eb)%Q).
  { unfold Dmag. rewrite Hdv, inject_Z_mult, Qpow10_inject by lia.
    rewrite <- Qmult_assoc, <- Qpow10_add.
    replace (sm + eb) with (Decimal.exp b) by (subst eb; lia).
    reflexivity. }
  destruct (N.eqb_spec (n mod d) 0) as [Hexact|Hinexact].
  - (* exact quotient *)
    destruct (Decimal.strip_zeros (Z.to_nat shift) (n / d) e (Decimal.exp a - Decimal.exp b))
      as [c' e'] eqn:Hstrip.
    assert (Hqnz : (n / d)%N <> 0%N) by lia.
    destruct (strip_zeros_value _ _ _ _ _ _ Hstrip Hqnz) as (Hc' & Hee & Hval).
    set (x := Decimal.mk (xorb (Decimal.sign a) (Decimal.sign b)) c' e').
    assert (Hxadj : e + 8 <= Decimal.adjusted x <= e + 9).
    { apply (adjusted_from_scaled x e (Z.of_N (n / d))); subst x; cbn; auto. }
    destruct (fix_value x Hc' ltac:(change (Decimal.Emin decimal_getcontext) with (-999999);
                                    change (Decimal.Emax decimal_getcontext) with 999999; lia))
      as (y & Hy & Hs & Hny & Hv & _).
    exists y. split; [assumption|].
    split; [rewrite Hs; subst x; cbn; rewrite Hsa, Hsb; reflexivity|].
    split; [assumption|].
    assert (HX : (Dmag x * Dmag b == Dmag a)%Q).
    { rewrite HA, HBd. rewrite (Dmag_scaled x e) by (subst x; cbn; lia).
      subst x. cbn [Decimal.coeff Decimal.exp]. rewrite Hval.
      rewrite Qpow10_add.
      assert (Hnd : Z.of_N n = Z.of_N (n / d) * Z.of_N d).
      { assert (Z.of_N n mod Z.of_N d = 0) by (rewrite <- Hr0, Hexact; reflexivity).
        rewrite Hq0. lia. }
      rewrite Hnd, inject_Z_mult. ring. }
    assert (HB : (0 < Dmag b)%Q) by (apply Dmag_pos, nonzero_is_zero; assumption).
    assert (HXp : (0 < Dmag x)%Q) by (apply Dmag_pos, nonzero_is_zero; assumption).
    rewrite <- HX.
    setoid_replace (Dmag y * Dmag b - Dmag x * Dmag b)%Q
      with ((Dmag y - Dmag x) * Dmag b)%Q by ring.
    rewrite Qabs_Qmult, (Qabs_pos (Dmag b)) by lra.
    rewrite Qmult_assoc. apply Qmult_le_compat_r; [assumption|lra].
  - (* inexact quotient, with the sticky digit *)
    set (c' := (if (n / d mod 5 =? 0)%N then n / d + 1 else n / d)%N).
    assert (Hc'Z : Z.of_N c' = (if Z.of_N n / Z.of_N d mod 5 =? 0
                                then Z.of_N n / Z.of_N d + 1 else Z.of_N n / Z.of_N d)).
    { subst c'. rewrite <- Hq0.
      assert (Hm5 : Z.of_N (n / d mod 5) = Z.of_N (n / d) mod 5) by apply N2Z.inj_mod.
      destruct (N.eqb_spec (n / d mod 5) 0) as [E|E];
        destruct (Z.eqb_spec (Z.of_N (n / d) mod 5) 0) as [E'|E']; lia. }
    assert (Hc'b : 100000000 <= Z.of_N c' < 10000000000).
    { rewrite Hc'Z. rewrite <- Hq0 in *.
      destruct (Z.eqb_spec (Z.of_N (n / d) mod 5) 0) as [E'|E'];
        Z.to_euclidean_division_equations; lia. }
    set (x := Decimal.mk (xorb (Decimal.sign a) (Decimal.sign b)) c' e).
    assert (Hxnz : Decimal.coeff x <> 0%N) by (subst x; cbn; lia).
    assert (Hxadj : e + 8 <= Decimal.adjusted x <= e + 9).
    { apply (adjusted_from_scaled x e (Z.of_N c')); subst x; cbn; auto; try lia.
      rewrite Z.sub_diag. simpl. lia. }
    set (k := Decimal.ndigits c' - 8).
    assert (Hk : 1 <= k <= 2).
    { subst k. unfold Decimal.adjusted in Hxadj. subst x. cbn in Hxadj. lia. }
    destruct (fix_round decimal_getcontext ltac:(cbn; lia) x Hxnz) as (y & Hy & Hs & Hny & Hc & Hey & _ & Hq).
    { change (Decimal.prec decimal_getcontext) with 8. subst x. cbn. fold k. lia. }
    { change (Decimal.prec decimal_getcontext) with 8. change (Decimal.Etiny decimal_getcontext) with (-1000006).
      change (Decimal.Etop decimal_getcontext) with 999992. subst x. cbn. fold k. lia. }
    change (Decimal.prec decimal_getcontext) with 8 in *.
    subst x. cbn [Decimal.coeff Decimal.exp Decimal.sign] in *. fold k in Hc, Hey, Hq.
    exists y. split; [assumption|].
    split; [rewrite Hs, Hsa, Hsb; reflexivity|].
    split; [assumption|].
    destruct (round_sticky c' (Z.of_N n) (Z.of_N d) k Hd ltac:(lia) ltac:(lia) ltac:(lia) Hc'Z)
      as [Hr1 Hr2].
    set (q := (c' / Decimal.pow10 k)%N) in *.
    set (r := (c' mod Decimal.pow10 k)%N) in *.
    set (R := if Decimal.round_up_half_even q r k then (q + 1)%N else q) in *.
    pose proof (Zpow10_pos k ltac:(lia)) as HT.
    assert (HY : (Dmag y == inject_Z (Z.of_N R * 10 ^ k) * 10 ^ e)%Q).
    { rewrite (Dmag_scaled y e) by lia.
      replace (Decimal.exp y - e) with ((Decimal.exp y - (e + k)) + k) by lia.
      rewrite Z.pow_add_r by lia. rewrite Z.mul_assoc, Hc. reflexivity. }
    assert (HD : (Dmag y * Dmag b - Dmag a
                  == inject_Z (Z.of_N R * 10 ^ k * Z.of_N d - Z.of_N n)
                     * 10 ^ (e + eb))%Q).
    { rewrite HA, HY, HBd. rewrite Qpow10_add.
      unfold Zminus. rewrite inject_Z_plus, inject_Z_opp, !inject_Z_mult. ring. }
    rewrite HD, HA. apply rel_bound_Q; [apply Qpow10_pos|].
    change (8 - 1) with 7 in Hq. change (10 ^ 7) with 10000000 in Hq.
    assert (H1 : 10000000 * (10 ^ k * Z.of_N d) <= Z.of_N q * (10 ^ k * Z.of_N d)).
    { apply Z.mul_le_mono_nonneg_r; [|lia]. apply Z.mul_nonneg_nonneg; lia. }
    rewrite <- Z.mul_assoc in Hr2.
    lia.
Qed.

(** ** The round trip through from_price *)

Lemma positive_inv (x : Decimal.t) :
  positive x -> Decimal.sign x = false /\ Decimal.coeff x <> 0%N.
Proof.
  unfold positive, Decimal.ltb, Decimal.cmp.
  change (Decimal.is_zero (Decimal.of_Z 0)) with true. cbv iota.
  unfold Decimal.is_zero.
  destruct (N.eqb_spec (Decimal.coeff x) 0); [discriminate|].
  destruct (Decimal.sign x); [discriminate|]. auto.
Qed.

Lemma Dval_positive (x : Decimal.t) : Decimal.sign x = false -> (Dval x == Dmag x)%Q.
Proof. intros H. rewrite Dval_mag, H. reflexivity. Qed.

(** C7, amended: for a positive base amount and a positive price whose
    product and quotient stay in the normal range of the context,
    from_price succeeds and the price read back differs from the one
    given by at most (1 + u)^2 - 1 of it, u = 5E-8 being half a unit of
    the eighth significant digit. *)
Theorem from_price_round_trip (cls_is_bid : bool) (base_amount price : Decimal.t) :
  positive base_amount -> positive price ->
  Decimal.Emin decimal_getcontext <= Decimal.adjusted base_amount + Decimal.adjusted price ->
  Decimal.adjusted base_amount + Decimal.adjusted price + 1 < Decimal.Emax decimal_getcontext ->
  Decimal.Emin decimal_getcontext < Decimal.adjusted price ->
  Decimal.adjusted price + 2 < Decimal.Emax decimal_getcontext ->
  exists o r, Offer.from_price cls_is_bid base_amount price = Ok o /\
    Offer.price o = Ok r /\
    (Qabs (Dval r - Dval price) <= round_trip_bound * Dval price)%Q.
Proof.
  intros Hb Hp H1 H2 H3 H4.
  apply positive_inv in Hb. destruct Hb as [Hsb Hnb].
  apply positive_inv in Hp. destruct Hp as [Hsp Hnp].
  destruct (mul_value base_amount price Hsb Hsp Hnb Hnp H1 H2)
    as (c & Hc & Hsc & Hnc & Hdc & Hvc & Hac).
  unfold Offer.from_price. rewrite Hc. cbn [rbind].
  eexists. unfold Offer.price, Offer.init. cbn [Offer.counter_amount Offer.base_amount].
  destruct (div_value c base_amount Hsc Hsb Hnc Hnb ltac:(lia) ltac:(lia))
    as (r & Hr & Hsr & Hnr & Hvr).
  exists r. split; [reflexivity|]. split; [assumption|].
  rewrite (Dval_positive r Hsr), (Dval_positive price Hsp).
  assert (HB : (0 < Dmag base_amount)%Q) by (apply Dmag_pos, nonzero_is_zero; assumption).
  assert (HP : (0 < Dmag price)%Q) by (apply Dmag_pos, nonzero_is_zero; assumption).
  apply Qabs_Qle_condition in Hvc. apply Qabs_Qle_condition in Hvr.
  unfold round_trip_bound, unit_roundoff in *.
  set (B := Dmag base_amount) in *. set (P := Dmag price) in *.
  set (C := Dmag c) in *. set (Rr := Dmag r) in *.
  clearbody B P C Rr.
  assert (HX : (- ((2 * (1 # 20000000) + (1 # 20000000) * (1 # 20000000)) * (B * P))
                <= Rr * B - B * P
                <= (2 * (1 # 20000000) + (1 # 20000000) * (1 # 20000000)) * (B * P))%Q).
  { set (X := (Rr * B)%Q) in *. set (Y := (B * P)%Q) in *. clearbody X Y. lra. }
  apply Qabs_Qle_condition. split.
  - apply (Qmult_le_r _ _ B HB).
    setoid_replace (- ((2 * (1 # 20000000) + (1 # 20000000) * (1 # 20000000)) * P) * B)%Q
      with (- ((2 * (1 # 20000000) + (1 # 20000000) * (1 # 20000000)) * (B * P)))%Q by ring.
    setoid_replace ((Rr - P) * B)%Q with (Rr * B - B * P)%Q by ring.
    apply HX.
  - apply (Qmult_le_r _ _ B HB).
    setoid_replace (((2 * (1 # 20000000) + (1 # 20000000) * (1 # 20000000)) * P) * B)%Q
      with ((2 * (1 # 20000000) + (1 # 20000000) * (1 # 20000000)) * (B * P))%Q by ring.
    setoid_replace ((Rr - P) * B)%Q with (Rr * B - B * P)%Q by ring.
    apply HX.
Qed.

(** ** Importing the order book *)

(** The metaclass refuses the body of OfferToken at the name __new__. *)
Lemma OfferToken_body_refused :
  typing.NamedTupleMeta_new "OfferToken" [typing.NamedTuple]
    orderbook.OfferToken_annotations orderbook.OfferToken_body
  = Raise AttributeError.
Proof. reflexivity. Qed.

(** The same body without __new__ is accepted: the class has the two
    fields and the property. *)
Example OfferToken_body_without_new :
  typing.NamedTupleMeta_new "OfferToken" [typing.NamedTuple]
    orderbook.OfferToken_annotations
    ["__module__"; "__qualname__"; "__annotations__"; "__doc__"; "is_bid"]%string
  = Ok (typing.mkClass "OfferToken" ["price"; "time"] []
          ["__qualname__"; "__doc__"; "is_bid"])%string.
Proof. reflexivity. Qed.

(** The NamedTuple classes of basic_types.py are all accepted; Currency
    comes out with the default of its issuer. *)
Example basic_types_classes_accepted :
  map (fun c => match typing.NamedTupleMeta_new (fst (fst c)) [typing.NamedTuple]
                        (snd (fst c)) (snd c) with
                | Ok cls => Some (typing._field_defaults cls)
                | Raise _ => None
                end) basic_types_classes
  = [Some ["issuer"%string]; Some []; Some []; Some []; Some []].
Proof. reflexivity. Qed.

Lemma exec_stops :
  orderbook.exec orderbook.fresh
  = (Raise AttributeError, orderbook.mkGlobals (Some 0) None None).
Proof. reflexivity. Qed.

Lemma import_raises : orderbook.import_ = Raise AttributeError.
Proof. reflexivity. Qed.

Lemma after_import_raises {S A : Type} (rest : orderbook.globals -> Py S A) (s : S) :
  after_import rest s = (Raise AttributeError, s).
Proof. unfold after_import, bind, lift. rewrite import_raises. reflexivity. Qed.

Lemma update_from_namespace_new (fields ns attrs : list string) :
  In "__new__"%string ns ->
  typing.update_from_namespace fields ns attrs = Raise AttributeError.
Proof.
  revert attrs. induction ns as [|key rest IH]; intros attrs Hin; [destruct Hin|].
  cbn [typing.update_from_namespace].
  destruct (typing.mem key typing._prohibited) eqn:Hp; [reflexivity|].
  destruct Hin as [->|Hin]; [discriminate Hp|].
  destruct (negb _ && negb _); apply IH; assumption.
Qed.

(** C3: executing orderbook.py stops at the class statement of
    OfferToken, which raises AttributeError.  The counter is bound by
    then and still at its first number; neither OfferToken nor Orderbook
    is bound.  No offer is admitted and no sequence number drawn, so
    there are no bids or asks to iterate in any order. *)
Theorem orderbook_module_stops_at_OfferToken :
  orderbook.exec orderbook.fresh
  = (Raise AttributeError,
     {| orderbook._offer_token_id := Some 0;
        orderbook.OfferToken := None;
        orderbook.Orderbook := None |}).
Proof. exact exec_stops. Qed.

(** C4: a program that imports the order book and calls add_many on a
    list of offers, and one that imports it and calls add on each offer
    in turn, both end at the import with AttributeError, whatever the
    two methods would do: neither returns a token and neither changes
    anything the caller holds. *)
Theorem add_many_and_add_never_return (S T : Type)
  (add_many add_each : orderbook.globals -> list Offer.t -> Py S (list T))
  (offers : list Offer.t) (s : S) :
  after_import (fun g => add_many g offers) s = (Raise AttributeError, s) /\
  after_import (fun g => add_each g offers) s = (Raise AttributeError, s).
Proof. split; apply after_import_raises. Qed.


(** C6: whatever a caller's program does after importing the order
    book (build a book, add an offer, remove its token, remove it
    again), the program raises AttributeError at the import and leaves
    the caller's state as it was: remove is never reached, and the error
    of a second remove is never KeyError. *)
Theorem caller_never_reaches_remove (S A : Type)
  (rest : orderbook.globals -> Py S A) (s : S) :
  after_import rest s = (Raise AttributeError, s).
Proof. apply after_import_raises. Qed.

(** C9: the class statement of OfferToken raises AttributeError, its
    body defining __new__, which a NamedTuple class may not.  There is
    no class OfferToken, so for no offer is OfferToken(offer) evaluated,
    whatever constructor and properties the class would have had. *)
Theorem OfferToken_is_never_made :
  fst (orderbook.class_OfferToken (orderbook.mkGlobals (Some 0) None None))
  = Raise AttributeError /\
  forall (A : Type) (make : typing.NamedTupleClass -> Offer.t -> result A)
         (offer : Offer.t),
    rbind (typing.NamedTupleMeta_new "OfferToken" [typing.NamedTuple]
             orderbook.OfferToken_annotations orderbook.OfferToken_body)
      (fun cls => make cls offer)
    = Raise AttributeError.
Proof.
  split; [reflexivity|]. intros A make offer.
  rewrite OfferToken_body_refused. reflexivity.
Qed.

(** No rearrangement of the body helps: a NamedTuple class statement
    whose body defines __new__ never yields a class, whatever its name,
    bases, fields and other attributes. *)
Theorem NamedTuple_with_new_is_refused (name : string) (bases : list typing.base)
  (types ns : list string) :
  In "__new__"%string ns ->
  exists e, typing.NamedTupleMeta_new name bases types ns = Raise e.
Proof.
  intros Hin. unfold typing.NamedTupleMeta_new.
  destruct (existsb typing.is_other bases); [eauto|].
  destruct (typing.default_names types ns []) as [defaults|e]; [|cbn; eauto].
  cbn [rbind]. unfold typing._make_nmtuple.
  destruct (existsb typing.starts_with_underscore types); [cbn; eauto|].
  cbn [rbind typing._fields].
  rewrite update_from_namespace_new by assumption. cbn. eauto.
Qed.

Lemma NamedTuple_with_new_is_refused_witness :
  exists e, typing.NamedTupleMeta_new "OfferToken" [typing.NamedTuple]
              orderbook.OfferToken_annotations orderbook.OfferToken_body = Raise e.
Proof.
  apply (NamedTuple_with_new_is_refused "OfferToken" [typing.NamedTuple]
           orderbook.OfferToken_annotations orderbook.OfferToken_body).
  cbn. auto 10.
Defined.

(** Importing the package raises AttributeError, and so does importing
    its module interfaces: both import Orderbook from orderbook.py. *)
Theorem package_import_raises :
  package.init = Raise AttributeError /\ package.interfaces = Raise AttributeError.
Proof. split; reflexivity. Qed.

(** ** The context of the package *)

Lemma ctx_prec_pos : 1 <= Decimal.prec decimal_getcontext.
Proof. cbn. lia. Qed.

Lemma ctx_range_ok : Decimal.Etiny decimal_getcontext <= Decimal.Emax decimal_getcontext.
Proof. cbv. discriminate. Qed.

Lemma price_representable (o : Offer.t) (p : Decimal.t) :
  Offer.price o = Ok p -> representable decimal_getcontext p.
Proof. apply div_representable; [exact ctx_prec_pos | exact ctx_range_ok]. Qed.

(** ** Failed calls *)



(** ** The market field *)




(** ** Sorted lists with a key *)

Section SortedListFacts.
Context {V : Type}.
Variable key : V -> Z.

Lemma insort_key_In (l : list V) (v x : V) :
  In x (SortedListWithKey.insort key l v) <-> x = v \/ In x l.
Proof.
  induction l as [|a l IH]; cbn; [intuition|].
  destruct (key v <? key a); cbn; rewrite ?IH; intuition.
Qed.

Lemma insort_key_sorted (l : list V) (v : V) :
  key_sorted key l -> key_sorted key (SortedListWithKey.insort key l v).
Proof.
  intros Hs. induction Hs as [|a l Hs IH Hall]; cbn.
  - repeat constructor.
  - destruct (Z.ltb_spec (key v) (key a)) as [Hlt|Hge].
    + constructor; [constructor; assumption|].
      constructor; [lia|].
      rewrite Forall_forall in *. intros y Hy. specialize (Hall y Hy). cbn in Hall. lia.
    + constructor; [assumption|].
      rewrite Forall_forall in *. intros y Hy. apply insort_key_In in Hy.
      destruct Hy as [-> | Hy]; [assumption | apply Hall; assumption].
Qed.

Lemma fold_insort_sorted (vs l : list V) :
  key_sorted key l -> key_sorted key (fold_left (SortedListWithKey.insort key) vs l).
Proof.
  revert l. induction vs as [|v vs IH]; intros l Hl; cbn; [assumption|].
  apply IH, insort_key_sorted, Hl.
Qed.

Lemma sorted_key_sorted (l : list V) : key_sorted key (SortedListWithKey.sorted key l).
Proof. apply fold_insort_sorted. constructor. Qed.

Lemma last_default (l : list V) (c a b : V) : last (c :: l) a = last (c :: l) b.
Proof.
  revert c. induction l as [|c' l IH]; intros c; [reflexivity|].
  change (last (c' :: l) a = last (c' :: l) b). apply IH.
Qed.

Lemma last_cons (l : list V) (a b : V) : last (b :: l) a = last l b.
Proof.
  destruct l as [|c l]; [reflexivity|].
  change (last (c :: l) a = last (c :: l) b). apply last_default.
Qed.

Lemma last_greatest (l : list V) (a : V) :
  key_sorted key (a :: l) -> forall x, In x (a :: l) -> key x <= key (last l a).
Proof.
  revert a. induction l as [|b l IH]; intros a Hs x Hx.
  - destruct Hx as [->|[]]. cbn. lia.
  - inversion Hs as [|? ? Hs' Hall]; subst. rewrite last_cons.
    destruct Hx as [-> | Hx].
    + assert (key x <= key b) by (inversion Hall; assumption).
      specialize (IH b Hs' b (or_introl eq_refl)). lia.
    + apply IH; assumption.
Qed.

Lemma last_In (l : list V) (a : V) : In (last l a) (a :: l).
Proof.
  revert a. induction l as [|b l IH]; intros a; [left; reflexivity|].
  right. rewrite last_cons. apply IH.
Qed.

End SortedListFacts.

Lemma fold_add_key {V : Type} (vs : list V) (s : SortedListWithKey.t) :
  SortedListWithKey.key (fold_left SortedListWithKey.add vs s) = SortedListWithKey.key s
  /\ SortedListWithKey.values (fold_left SortedListWithKey.add vs s)
     = fold_left (SortedListWithKey.insort (SortedListWithKey.key s)) vs
         (SortedListWithKey.values s).
Proof.
  revert s. induction vs as [|v vs IH]; intros s; cbn; [auto|].
  destruct (IH (SortedListWithKey.add s v)) as [-> ->]. cbn. auto.
Qed.

Lemma add_key_sorted {V : Type} (s : SortedListWithKey.t) (v : V) :
  key_sorted (SortedListWithKey.key s) (SortedListWithKey.values s) ->
  key_sorted (SortedListWithKey.key (SortedListWithKey.add s v))
    (SortedListWithKey.values (SortedListWithKey.add s v)).
Proof. cbn. apply insort_key_sorted. Qed.

Lemma update_key_sorted {V : Type} (s : SortedListWithKey.t) (vs : list V) :
  key_sorted (SortedListWithKey.key s) (SortedListWithKey.values s) ->
  key_sorted (SortedListWithKey.key (SortedListWithKey.update s vs))
    (SortedListWithKey.values (SortedListWithKey.update s vs)).
Proof.
  intros Hs. unfold SortedListWithKey.update.
  destruct (SortedListWithKey.values s) as [|a l] eqn:Hv.
  - cbn [SortedListWithKey.key SortedListWithKey.values]. apply sorted_key_sorted.
  - destruct (_ <=? _).
    + cbn [SortedListWithKey.key SortedListWithKey.values]. apply sorted_key_sorted.
    + destruct (fold_add_key (SortedListWithKey.sorted (SortedListWithKey.key s) vs) s)
        as [-> ->].
      apply fold_insort_sorted. rewrite Hv. assumption.
Qed.

(** ** Trade history *)

(** C1: no History can be created, since the key function its constructor
    asks the Trade class for does not exist. *)
Theorem History_init_raises (m : Market) : History.init m = Raise AttributeError.
Proof. reflexivity. Qed.

(** C2: asking a new history for its last trade ends in the
    constructor's AttributeError, not in the empty-history error. *)
Theorem History_last_of_new_raises (m : Market) :
  rbind (History.init m) (fun h => fst (History.last h)) = Raise AttributeError.
Proof. reflexivity. Qed.

(** With time as the key, which the source does not supply, the example
    of the specification runs as described. *)
Example history_with_time_key (m : Market) (o : Offer.t) :
  let h0 := History.mk m (SortedListWithKey.init Trade.time) in
  let h1 := snd (History.add (Trade.mk 1000 o) h0) in
  let h2 := snd (History.add (Trade.mk 900 o) h1) in
  let h3 := snd (History.add (Trade.mk 930 o) h2) in
  map Trade.time (SortedListWithKey.values (History.trades h3)) = [900; 930; 1000]
  /\ fst (History.last h3) = Ok (Trade.mk 1000 o)
  /\ History.last h0 = (Raise IndexError, h0).
Proof. repeat split. Qed.

(** History.last returns a trade whose key is the greatest held, and on
    a history without trades raises IndexError and changes nothing. *)
Lemma History_last_spec (h : History.t) :
  key_sorted (SortedListWithKey.key (History.trades h))
    (SortedListWithKey.values (History.trades h)) ->
  match History.last h with
  | (Ok t, h') =>
      h' = h /\ In t (SortedListWithKey.values (History.trades h)) /\
      forall x, In x (SortedListWithKey.values (History.trades h)) ->
                SortedListWithKey.key (History.trades h) x
                <= SortedListWithKey.key (History.trades h) t
  | (Raise e, h') =>
      h' = h /\ e = IndexError /\ SortedListWithKey.values (History.trades h) = []
  end.
Proof.
  intros Hs. unfold History.last, bind, get, lift, SortedListWithKey.getitem_last.
  destruct (SortedListWithKey.values (History.trades h)) as [|a l] eqn:Hv.
  - auto.
  - split; [reflexivity|]. split; [apply last_In|].
    apply last_greatest. assumption.
Qed.

(** ** The round trip at concrete prices *)

(** C7, as stated, fails: the product of these two positive numbers is
    above the largest number of the context, so from_price raises
    Overflow and there is no price to read back. *)
Lemma from_price_overflows :
  positive (Decimal.mk false 1 999999) /\ positive (Decimal.of_Z 10) /\
  ~ (exists o r,
       Offer.from_price false (Decimal.mk false 1 999999) (Decimal.of_Z 10) = Ok o /\
       Offer.price o = Ok r /\
       (Qabs (Dval r - Dval (Decimal.of_Z 10)) <= round_trip_bound * Dval (Decimal.of_Z 10))%Q).
Proof.
  split; [reflexivity|]. split; [reflexivity|].
  intros (o & r & H & _). vm_compute in H. discriminate H.
Qed.

Lemma from_price_round_trip_witness :
  exists o r,
    Offer.from_price true (Decimal.of_Z 3) (Decimal.mk false 15 (-1)) = Ok o /\
    Offer.price o = Ok r /\
    (Qabs (Dval r - Dval (Decimal.mk false 15 (-1)))
     <= round_trip_bound * Dval (Decimal.mk false 15 (-1)))%Q.
Proof.
  apply (from_price_round_trip true (Decimal.of_Z 3) (Decimal.mk false 15 (-1)));
    vm_compute; first [reflexivity | discriminate].
Defined.

(** Two roundings can move the eighth digit: 9.9999999 reads back as 10,
    which is within the bound and not the price that went in. *)
Example round_trip_last_digit :
  rbind (Offer.from_price true (Decimal.mk false 10000001 (-7)) (Decimal.mk false 99999999 (-7)))
    Offer.price = Ok (Decimal.mk false 1 1).
Proof. vm_compute. reflexivity. Qed.

(** ** Prices *)

Lemma fix_raises_overflow (c : Decimal.context) (x : Decimal.t) (e : exn) :
  Decimal.fix_ c x = Raise e -> e = Overflow.
Proof.
  unfold Decimal.fix_.
  repeat match goal with
         | |- context [if ?b then _ else _] => destruct b
         | |- context [let '(_, _) := ?p in _] => destruct p
         end; intros [= <-]; reflexivity.
Qed.

Lemma div_outcome (a b : Decimal.t) :
  match Decimal.div decimal_getcontext a b with
  | Ok p => Decimal.is_zero b = false /\ representable decimal_getcontext p
  | Raise e => e = div_error a b
  end.
Proof.
  destruct (Decimal.div decimal_getcontext a b) as [p|e] eqn:H.
  - split; [|eapply div_representable; [exact ctx_prec_pos|exact ctx_range_ok|exact H]].
    unfold Decimal.div in H. destruct (Decimal.is_zero b); [|reflexivity].
    destruct (Decimal.is_zero a); discriminate.
  - unfold Decimal.div, div_error in *.
    destruct (Decimal.is_zero b).
    + destruct (Decimal.is_zero a); congruence.
    + destruct (Decimal.is_zero a).
      * eapply fix_raises_overflow; eassumption.
      * match type of H with context [let '(_, _) := ?p in _] => destruct p end.
        eapply fix_raises_overflow; eassumption.
Qed.

(** Offer.price and Offer.price_remaining: a price has at most eight
    digits and lies in the range of the context; the exceptions are
    DivisionByZero for a zero base under a nonzero counter,
    InvalidOperation for zero over zero, and otherwise Overflow. *)
Theorem price_outcome (o : Offer.t) :
  match Offer.price o with
  | Ok p => Decimal.is_zero (Offer.base_amount o) = false
            /\ representable decimal_getcontext p
  | Raise e => e = div_error (Offer.counter_amount o) (Offer.base_amount o)
  end /\
  match Offer.price_remaining o with
  | Ok p => Decimal.is_zero (Offer.base_remaining o) = false
            /\ representable decimal_getcontext p
  | Raise e => e = div_error (Offer.counter_remaining o) (Offer.base_remaining o)
  end.
Proof. split; apply div_outcome. Qed.

Lemma Dval_zero : (Dval (Decimal.of_Z 0) == 0)%Q.
Proof. reflexivity. Qed.

Lemma positive_Dval (x : Decimal.t) : positive x <-> (0 < Dval x)%Q.
Proof. unfold positive. rewrite ltb_Dval, Dval_zero. reflexivity. Qed.

Lemma priced_offer_price (o : Offer.t) :
  priced_normally o ->
  exists p, Offer.price o = Ok p /\ positive p /\
    (Qabs (Dval p * Dval (Offer.base_amount o) - Dval (Offer.counter_amount o))
     <= unit_roundoff * Dval (Offer.counter_amount o))%Q.
Proof.
  intros (Hb & Hc & Hlo & Hhi).
  apply positive_inv in Hb. destruct Hb as [Hsb Hnb].
  apply positive_inv in Hc. destruct Hc as [Hsc Hnc].
  destruct (div_value _ _ Hsc Hsb Hnc Hnb Hlo Hhi) as (p & Hp & Hsp & Hnp & Hv).
  exists p. split; [exact Hp|]. split.
  - apply positive_Dval. rewrite (Dval_positive p Hsp).
    apply Dmag_pos, nonzero_is_zero. assumption.
  - rewrite (Dval_positive p Hsp), (Dval_positive _ Hsb), (Dval_positive _ Hsc).
    exact Hv.
Qed.

(** Offer.price of positive amounts whose quotient is in the normal
    range: it returns a positive price, and price times base is within
    5E-8, relatively, of the counter amount. *)
Theorem price_value (o : Offer.t) :
  priced_normally o ->
  exists p, Offer.price o = Ok p /\ positive p /\
    (Qabs (Dval p * Dval (Offer.base_amount o) - Dval (Offer.counter_amount o))
     <= unit_roundoff * Dval (Offer.counter_amount o))%Q.
Proof. apply priced_offer_price. Qed.

Lemma price_value_witness :
  exists p, Offer.price bid_9000 = Ok p /\ positive p /\
    (Qabs (Dval p * Dval (Offer.base_amount bid_9000) - Dval (Offer.counter_amount bid_9000))
     <= unit_roundoff * Dval (Offer.counter_amount bid_9000))%Q.
Proof.
  apply (price_value bid_9000).
  repeat split; vm_compute; first [reflexivity | discriminate].
Defined.

Lemma ltb_irrefl (x : Decimal.t) : Decimal.ltb x x = false.
Proof. apply ltb_Dval_false. lra. Qed.

(** A newly constructed offer is not partial, whichever way it was
    constructed. *)
Theorem new_offer_not_partial (cls_is_bid : bool) (base_amount amount : Decimal.t) :
  Offer.is_partial (Offer.init cls_is_bid base_amount amount) = false /\
  match Offer.from_price cls_is_bid base_amount amount with
  | Ok o => Offer.is_partial o = false
  | Raise _ => True
  end.
Proof.
  split; [apply ltb_irrefl|].
  unfold Offer.from_price. destruct (Decimal.mul _ _ _); cbn [rbind]; [|exact I].
  apply ltb_irrefl.
Qed.

(** Offer.from_price keeps the class and the base amount, starts the
    remaining amounts at the full ones, and stores a counter amount of at
    most eight digits; the only exception it raises is Overflow. *)
Theorem from_price_outcome (cls_is_bid : bool) (base_amount price : Decimal.t) :
  match Offer.from_price cls_is_bid base_amount price with
  | Ok o =>
      Offer.is_bid o = cls_is_bid /\ Offer.base_amount o = base_amount /\
      Offer.base_remaining o = base_amount /\
      Offer.counter_remaining o = Offer.counter_amount o /\
      representable decimal_getcontext (Offer.counter_amount o) /\
      (Decimal.is_zero base_amount || Decimal.is_zero price = true ->
       Decimal.is_zero (Offer.counter_amount o) = true)
  | Raise e => e = Overflow
  end.
Proof.
  unfold Offer.from_price.
  destruct (Decimal.mul decimal_getcontext base_amount price) as [c|e] eqn:H; cbn [rbind].
  - cbn. repeat split.
    + eapply mul_representable; [exact ctx_prec_pos|exact ctx_range_ok|exact H].
    + intros Hz. unfold Decimal.mul, Decimal.fix_ in H.
      assert (Hz' : Decimal.is_zero
                (Decimal.mk (xorb (Decimal.sign base_amount) (Decimal.sign price))
                   (Decimal.coeff base_amount * Decimal.coeff price)
                   (Decimal.exp base_amount + Decimal.exp price)) = true).
      { unfold Decimal.is_zero in *. cbn. apply orb_true_iff in Hz.
        apply N.eqb_eq. destruct Hz as [Hz|Hz]; apply N.eqb_eq in Hz; rewrite Hz; lia. }
      rewrite Hz' in H. injection H as <-. reflexivity.
  - eapply fix_raises_overflow. exact H.
Qed.

(** ** More on trade histories *)

Section SortedListMore.
Context {V : Type}.
Variable key : V -> Z.
Variable eqb : V -> V -> bool.

Lemma insort_perm (l : list V) (v : V) : Permutation ((SortedListWithKey.insort key) l v) (v :: l).
Proof.
  induction l as [|a l IH]; cbn; [reflexivity|].
  destruct (key v <? key a); [reflexivity|].
  rewrite IH. apply perm_swap.
Qed.

Lemma fold_insort_perm (vs l : list V) :
  Permutation (fold_left (SortedListWithKey.insort key) vs l) (l ++ vs).
Proof.
  revert l. induction vs as [|v vs IH]; intros l; cbn.
  - rewrite app_nil_r. reflexivity.
  - rewrite IH, insort_perm. cbn. apply Permutation_middle.
Qed.

(** Inserting past every key of the list appends. *)
Lemma insort_last (l : list V) (v : V) :
  Forall (fun x => key x <= key v) l -> (SortedListWithKey.insort key) l v = l ++ [v].
Proof.
  induction 1 as [|a l Ha Hl IH]; cbn; [reflexivity|].
  destruct (Z.ltb_spec (key v) (key a)); [lia|]. rewrite IH. reflexivity.
Qed.

Lemma fold_insort_sorted_id (l m : list V) :
  key_sorted key (m ++ l) -> fold_left (SortedListWithKey.insort key) l m = m ++ l.
Proof.
  revert m. induction l as [|a l IH]; intros m Hs; cbn.
  - rewrite app_nil_r. reflexivity.
  - rewrite insort_last.
    + rewrite IH; rewrite <- app_assoc; [reflexivity|exact Hs].
    + clear IH. induction m as [|b m IHm]; [constructor|].
      cbn in Hs. inversion Hs as [|? ? Hs' Hall]; subst.
      constructor; [|apply IHm; assumption].
      rewrite Forall_forall in Hall. apply Hall. apply in_or_app. right. left. reflexivity.
Qed.

(** Two insertions with different keys commute. *)
Lemma insort_comm (l : list V) (v s : V) :
  key v < key s -> (SortedListWithKey.insort key) ((SortedListWithKey.insort key) l v) s = (SortedListWithKey.insort key) ((SortedListWithKey.insort key) l s) v.
Proof.
  intros Hvs. induction l as [|x l IH]; cbn.
  - destruct (Z.ltb_spec (key s) (key v)); [lia|].
    destruct (Z.ltb_spec (key v) (key s)); [reflexivity|lia].
  - destruct (Z.ltb_spec (key v) (key x)) as [Hvx|Hvx];
      destruct (Z.ltb_spec (key s) (key x)) as [Hsx|Hsx]; cbn.
    + destruct (Z.ltb_spec (key s) (key v)); [lia|].
      destruct (Z.ltb_spec (key v) (key s)); [|lia].
      destruct (Z.ltb_spec (key s) (key x)); [reflexivity|lia].
    + destruct (Z.ltb_spec (key s) (key v)); [lia|].
      destruct (Z.ltb_spec (key v) (key x)); [|lia].
      destruct (Z.ltb_spec (key s) (key x)); [lia|reflexivity].
    + lia.
    + destruct (Z.ltb_spec (key s) (key x)); [lia|].
      destruct (Z.ltb_spec (key v) (key x)); [lia|].
      rewrite IH. reflexivity.
Qed.

Lemma fold_insort_comm (s2 l : list V) (v : V) :
  Forall (fun x => key v < key x) s2 ->
  fold_left (SortedListWithKey.insort key) s2 ((SortedListWithKey.insort key) l v) = (SortedListWithKey.insort key) (fold_left (SortedListWithKey.insort key) s2 l) v.
Proof.
  intros H. revert l. induction H as [|s s2 Hs Hall IH]; intros l; cbn; [reflexivity|].
  rewrite insort_comm by assumption. apply IH.
Qed.

Lemma insort_split (l : list V) (v : V) :
  key_sorted key l ->
  exists l1 l2, l = l1 ++ l2 /\ (SortedListWithKey.insort key) l v = l1 ++ v :: l2 /\
                Forall (fun x => key v < key x) l2.
Proof.
  intros Hs. induction Hs as [|a l Hs IH Hall].
  - exists [], []. repeat split. constructor.
  - cbn. destruct (Z.ltb_spec (key v) (key a)) as [Hlt|Hge].
    + exists [], (a :: l). repeat split. constructor; [assumption|].
      eapply Forall_impl; [|exact Hall]. cbn. intros; lia.
    + destruct IH as (l1 & l2 & -> & E & F).
      exists (a :: l1), l2. rewrite E. repeat split. assumption.
Qed.

(** Adding a batch in sorted order or in the order given ends in the
    same list. *)
Lemma fold_insort_presorted (vs l : list V) :
  fold_left (SortedListWithKey.insort key) (SortedListWithKey.sorted key vs) l = fold_left (SortedListWithKey.insort key) vs l.
Proof.
  unfold SortedListWithKey.sorted.
  induction vs as [|v vs IH] using rev_ind; [reflexivity|].
  rewrite !fold_left_app. cbn [fold_left].
  destruct (insort_split (fold_left (SortedListWithKey.insort key) vs []) v (sorted_key_sorted key vs))
    as (l1 & l2 & E & Ei & F).
  rewrite Ei, fold_left_app. cbn [fold_left].
  rewrite fold_insort_comm by assumption.
  rewrite <- fold_left_app, <- E, IH. reflexivity.
Qed.

Lemma remove_from_outcome (l : list V) (v : V) :
  key_sorted key l ->
  match SortedListWithKey.remove_from eqb key l v with
  | Ok l' => exists l1 x l2, l = l1 ++ x :: l2 /\ l' = l1 ++ l2 /\
                             eqb x v = true /\ key x = key v
  | Raise e => e = ValueError /\
               forall x, In x l -> key x = key v -> eqb x v = false
  end.
Proof.
  intros Hs. induction Hs as [|a l Hs IH Hall]; cbn.
  - split; [reflexivity|]. intros x [].
  - destruct (Z.ltb_spec (key a) (key v)) as [Hlt|Hge].
    + destruct (SortedListWithKey.remove_from eqb key l v) as [l'|e]; cbn.
      * destruct IH as (l1 & x & l2 & -> & -> & E & K).
        exists (a :: l1), x, l2. repeat split; assumption.
      * destruct IH as [-> IH]. split; [reflexivity|].
        intros x [<-|Hx] K; [lia|]. apply IH; assumption.
    + destruct (Z.eqb_spec (key a) (key v)) as [Heq|Hne].
      * destruct (eqb a v) eqn:E.
        -- exists [], a, l. repeat split; assumption.
        -- destruct (SortedListWithKey.remove_from eqb key l v) as [l'|e]; cbn.
           ++ destruct IH as (l1 & x & l2 & -> & -> & E' & K).
              exists (a :: l1), x, l2. repeat split; assumption.
           ++ destruct IH as [-> IH]. split; [reflexivity|].
              intros x [<-|Hx] K; [assumption|]. apply IH; assumption.
      * split; [reflexivity|]. intros x [<-|Hx] K; [lia|].
        rewrite Forall_forall in Hall. specialize (Hall x Hx). cbn in Hall. lia.
Qed.

Lemma remove_from_sorted (l l' : list V) (v : V) :
  key_sorted key l -> SortedListWithKey.remove_from eqb key l v = Ok l' ->
  key_sorted key l'.
Proof.
  intros Hs H. pose proof (remove_from_outcome l v Hs) as Ho. rewrite H in Ho.
  destruct Ho as (l1 & x & l2 & -> & -> & _).
  clear H. induction l1 as [|b l1 IH]; cbn in *.
  - inversion Hs; assumption.
  - inversion Hs as [|? ? Hs' Hall]; subst. constructor; [apply IH; assumption|].
    rewrite Forall_forall in *. intros y Hy. apply Hall.
    apply in_app_or in Hy. apply in_or_app. destruct Hy; [left|right; right]; assumption.
Qed.

End SortedListMore.

Lemma update_values {V : Type} (s : SortedListWithKey.t) (vs : list V) :
  key_sorted (SortedListWithKey.key s) (SortedListWithKey.values s) ->
  SortedListWithKey.update s vs
  = SortedListWithKey.mk (SortedListWithKey.key s)
      (fold_left (SortedListWithKey.insort (SortedListWithKey.key s)) vs
         (SortedListWithKey.values s)).
Proof.
  intros Hs. destruct s as [key l]. cbn in *.
  unfold SortedListWithKey.update. cbn [SortedListWithKey.key SortedListWithKey.values].
  destruct l as [|a l].
  - reflexivity.
  - destruct (_ <=? _).
    + f_equal. unfold SortedListWithKey.sorted at 1. rewrite fold_left_app.
      rewrite (fold_insort_sorted_id key (a :: l) []) by assumption.
      apply fold_insort_presorted.
    + destruct (fold_add_key (SortedListWithKey.sorted key vs)
                  (SortedListWithKey.mk key (a :: l))) as [Hk Hv].
      cbn [SortedListWithKey.key SortedListWithKey.values] in Hk, Hv.
      destruct (fold_left SortedListWithKey.add _ _) as [key' l'].
      cbn in Hk, Hv. subst key' l'. f_equal. apply fold_insort_presorted.
Qed.

Lemma sample_history_sorted (o : Offer.t) : history_sorted (sample_history o).
Proof.
  unfold history_sorted, key_sorted, sample_history. cbn.
  repeat constructor; cbn; lia.
Qed.

(** Every method of History leaves the trades in ascending order of the
    key of the list, whatever that key is. *)
Theorem history_methods_keep_order (Offer_eq : Offer.t -> Offer.t -> bool)
  (op : history_op) (h : History.t) :
  history_sorted h -> history_sorted (snd (hexec Offer_eq op h)).
Proof.
  unfold history_sorted. intros Hs. destruct op as [| |t|ts|t]; cbn [hexec].
  - unfold History.last, bind, get, lift.
    destruct (SortedListWithKey.getitem_last _); assumption.
  - constructor.
  - apply insort_key_sorted. assumption.
  - apply update_key_sorted. assumption.
  - unfold History.remove, bind, get, lift, put, SortedListWithKey.remove.
    destruct (SortedListWithKey.remove_from _ _ _ t) as [l'|e] eqn:Hr; cbn; [|assumption].
    eapply remove_from_sorted; eassumption.
Qed.

Lemma history_methods_keep_order_witness :
  history_sorted
    (snd (hexec (fun _ _ => true) (HAdd (Trade.mk 915 tiny_bid)) (sample_history tiny_bid))).
Proof.
  apply (history_methods_keep_order (fun _ _ => true) (HAdd (Trade.mk 915 tiny_bid))
           (sample_history tiny_bid)).
  apply sample_history_sorted.
Defined.

(** History.last on a history in key order: it returns a stored trade
    whose key no stored trade exceeds, and changes nothing; on a history
    without trades it raises IndexError and changes nothing. *)
Theorem history_last_outcome (h : History.t) :
  history_sorted h ->
  match History.last h with
  | (Ok t, h') =>
      h' = h /\ In t (SortedListWithKey.values (History.trades h)) /\
      forall x, In x (SortedListWithKey.values (History.trades h)) ->
                SortedListWithKey.key (History.trades h) x
                <= SortedListWithKey.key (History.trades h) t
  | (Raise e, h') =>
      h' = h /\ e = IndexError /\ SortedListWithKey.values (History.trades h) = []
  end.
Proof. apply History_last_spec. Qed.

Lemma history_last_outcome_witness :
  match History.last (sample_history tiny_bid) with
  | (Ok t, h') =>
      h' = sample_history tiny_bid /\
      In t (SortedListWithKey.values (History.trades (sample_history tiny_bid))) /\
      forall x, In x (SortedListWithKey.values (History.trades (sample_history tiny_bid))) ->
                SortedListWithKey.key (History.trades (sample_history tiny_bid)) x
                <= SortedListWithKey.key (History.trades (sample_history tiny_bid)) t
  | (Raise e, h') =>
      h' = sample_history tiny_bid /\ e = IndexError /\
      SortedListWithKey.values (History.trades (sample_history tiny_bid)) = []
  end.
Proof.
  apply (history_last_outcome (sample_history tiny_bid)).
  apply sample_history_sorted.
Defined.

Lemma update_perm {V : Type} (s : SortedListWithKey.t) (vs : list V) :
  SortedListWithKey.key (SortedListWithKey.update s vs) = SortedListWithKey.key s /\
  Permutation (SortedListWithKey.values (SortedListWithKey.update s vs))
    (SortedListWithKey.values s ++ vs).
Proof.
  destruct s as [key l]. unfold SortedListWithKey.update.
  cbn [SortedListWithKey.key SortedListWithKey.values].
  assert (Hsv : Permutation (SortedListWithKey.sorted key vs) vs).
  { unfold SortedListWithKey.sorted. apply (fold_insort_perm key vs []). }
  destruct l as [|a l].
  - cbn. split; [reflexivity|assumption].
  - destruct (_ <=? _).
    + cbn [SortedListWithKey.key SortedListWithKey.values]. split; [reflexivity|].
      unfold SortedListWithKey.sorted at 1.
      rewrite (fold_insort_perm key _ []). cbn [app].
      apply Permutation_app_head with (l := a :: l). assumption.
    + destruct (fold_add_key (SortedListWithKey.sorted key vs)
                  (SortedListWithKey.mk key (a :: l))) as [Hk Hv].
      split; [exact Hk|]. rewrite Hv.
      cbn [SortedListWithKey.key SortedListWithKey.values].
      rewrite fold_insort_perm.
      apply Permutation_app_head with (l := a :: l). assumption.
Qed.

(** History.add and History.add_many neither drop nor duplicate a trade:
    afterwards the history holds the trades it held and the ones given,
    under the same key and market. *)
Theorem history_add_keeps_trades (h : History.t) (trade : Trade.t) (trades : list Trade.t) :
  let h1 := snd (History.add trade h) in
  let h2 := snd (History.add_many trades h) in
  Permutation (SortedListWithKey.values (History.trades h1))
    (trade :: SortedListWithKey.values (History.trades h)) /\
  Permutation (SortedListWithKey.values (History.trades h2))
    (SortedListWithKey.values (History.trades h) ++ trades) /\
  SortedListWithKey.key (History.trades h1) = SortedListWithKey.key (History.trades h) /\
  SortedListWithKey.key (History.trades h2) = SortedListWithKey.key (History.trades h) /\
  History.market h1 = History.market h /\ History.market h2 = History.market h.
Proof.
  cbn. destruct (update_perm (History.trades h) trades) as [Hk Hp].
  repeat split; try assumption. apply insort_perm.
Qed.

Lemma history_add_each_eq (trades : list Trade.t) (h : History.t) :
  history_add_each trades h
  = History.mk (History.market h)
      (SortedListWithKey.mk (SortedListWithKey.key (History.trades h))
         (fold_left (SortedListWithKey.insort (SortedListWithKey.key (History.trades h)))
            trades (SortedListWithKey.values (History.trades h)))).
Proof.
  unfold history_add_each. revert h. induction trades as [|t ts IH]; intros h.
  - destruct h as [m [k l]]. reflexivity.
  - cbn [fold_left]. rewrite IH. reflexivity.
Qed.

(** History.add_many on a history in key order leaves exactly the history
    that History.add, called on each trade in list order, leaves. *)
Theorem history_add_many_is_repeated_add (h : History.t) (trades : list Trade.t) :
  history_sorted h ->
  snd (History.add_many trades h) = history_add_each trades h.
Proof.
  intros Hs. rewrite history_add_each_eq. cbn.
  rewrite update_values by exact Hs. reflexivity.
Qed.

Lemma history_add_many_is_repeated_add_witness :
  snd (History.add_many [Trade.mk 930 tiny_ask; Trade.mk 100 tiny_bid] (sample_history tiny_bid))
  = history_add_each [Trade.mk 930 tiny_ask; Trade.mk 100 tiny_bid] (sample_history tiny_bid).
Proof.
  apply (history_add_many_is_repeated_add (sample_history tiny_bid)).
  apply sample_history_sorted.
Defined.

(** History.remove on a history in key order: when it returns, one stored
    trade that is equal to the given one and has its key is gone and the
    rest is as before; when no stored trade with that key equals the given
    one it raises ValueError and changes nothing. *)
Theorem history_remove_outcome (Offer_eq : Offer.t -> Offer.t -> bool)
  (trade : Trade.t) (h : History.t) :
  history_sorted h ->
  match History.remove Offer_eq trade h with
  | (Ok _, h') =>
      exists l1 x l2,
        SortedListWithKey.values (History.trades h) = l1 ++ x :: l2 /\
        SortedListWithKey.values (History.trades h') = l1 ++ l2 /\
        History.Trade_eq Offer_eq x trade = true /\
        SortedListWithKey.key (History.trades h) x
        = SortedListWithKey.key (History.trades h) trade /\
        SortedListWithKey.key (History.trades h') = SortedListWithKey.key (History.trades h) /\
        History.market h' = History.market h
  | (Raise e, h') =>
      e = ValueError /\ h' = h /\
      forall x, In x (SortedListWithKey.values (History.trades h)) ->
        SortedListWithKey.key (History.trades h) x
        = SortedListWithKey.key (History.trades h) trade ->
        History.Trade_eq Offer_eq x trade = false
  end.
Proof.
  intros Hs. unfold History.remove, bind, get, lift, put, SortedListWithKey.remove.
  pose proof (remove_from_outcome (SortedListWithKey.key (History.trades h))
                (History.Trade_eq Offer_eq) _ trade Hs) as Ho.
  destruct (SortedListWithKey.remove_from _ _ _ trade) as [l'|e]; cbn.
  - destruct Ho as (l1 & x & l2 & E1 & E2 & E3 & E4).
    exists l1, x, l2. repeat split; assumption.
  - destruct Ho as [-> Ho]. repeat split. assumption.
Qed.

Lemma history_remove_outcome_witness :
  match History.remove (fun _ _ => true) (Trade.mk 930 tiny_bid) (sample_history tiny_bid) with
  | (Ok _, h') =>
      exists l1 x l2,
        SortedListWithKey.values (History.trades (sample_history tiny_bid)) = l1 ++ x :: l2 /\
        SortedListWithKey.values (History.trades h') = l1 ++ l2 /\
        History.Trade_eq (fun _ _ => true) x (Trade.mk 930 tiny_bid) = true /\
        SortedListWithKey.key (History.trades (sample_history tiny_bid)) x
        = SortedListWithKey.key (History.trades (sample_history tiny_bid)) (Trade.mk 930 tiny_bid) /\
        SortedListWithKey.key (History.trades h')
        = SortedListWithKey.key (History.trades (sample_history tiny_bid)) /\
        History.market h' = History.market (sample_history tiny_bid)
  | (Raise e, h') =>
      e = ValueError /\ h' = sample_history tiny_bid /\
      forall x, In x (SortedListWithKey.values (History.trades (sample_history tiny_bid))) ->
        SortedListWithKey.key (History.trades (sample_history tiny_bid)) x
        = SortedListWithKey.key (History.trades (sample_history tiny_bid)) (Trade.mk 930 tiny_bid) ->
        History.Trade_eq (fun _ _ => true) x (Trade.mk 930 tiny_bid) = false
  end.
Proof.
  apply (history_remove_outcome (fun _ _ => true) (Trade.mk 930 tiny_bid)
           (sample_history tiny_bid)).
  apply sample_history_sorted.
Defined.

(** ** Printing currencies and markets *)

Lemma has_char_app (c : ascii) (a b : string) :
  has_char c (a ++ b) = has_char c a || has_char c b.
Proof.
  induction a as [|x a IH]; cbn; [reflexivity|].
  rewrite IH. apply orb_assoc.
Qed.

(** A string is cut in one way only at the first occurrence of a
    character. *)
Lemma cut_unique (c : ascii) (a1 a2 b1 b2 : string) :
  has_char c a1 = false -> has_char c a2 = false ->
  (a1 ++ String c b1 = a2 ++ String c b2)%string -> a1 = a2 /\ b1 = b2.
Proof.
  revert a2. induction a1 as [|x a1 IH]; intros [|y a2]; cbn; intros H1 H2 E.
  - injection E as ->. auto.
  - injection E as <- _. rewrite Ascii.eqb_refl in H2. discriminate.
  - injection E as -> _. rewrite Ascii.eqb_refl in H1. discriminate.
  - injection E as -> E. apply orb_false_iff in H1. apply orb_false_iff in H2.
    destruct (IH a2 (proj2 H1) (proj2 H2) E) as [-> ->]. auto.
Qed.

Lemma Currency_str_cases (c : Currency) :
  (issuer c = "" /\ Currency_str c = symbol c)%string \/
  (issuer c <> "" /\ Currency_str c = symbol c ++ String "." (issuer c))%string.
Proof.
  unfold Currency_str. destruct (String.eqb_spec (issuer c) ""); [left|right]; auto.
Qed.

Lemma Currency_str_inj (c1 c2 : Currency) :
  has_char "." (symbol c1) = false -> has_char "." (symbol c2) = false ->
  Currency_str c1 = Currency_str c2 -> c1 = c2.
Proof.
  intros H1 H2 E. destruct c1 as [s1 i1], c2 as [s2 i2].
  destruct (Currency_str_cases (mkCurrency s1 i1)) as [[I1 S1]|[I1 S1]];
    destruct (Currency_str_cases (mkCurrency s2 i2)) as [[I2 S2]|[I2 S2]];
    rewrite S1, S2 in E; cbn in *.
  - congruence.
  - subst s1. rewrite has_char_app in H1. cbn in H1.
    rewrite orb_true_r in H1. discriminate.
  - subst s2. rewrite has_char_app in H2. cbn in H2.
    rewrite orb_true_r in H2. discriminate.
  - destruct (cut_unique _ _ _ _ _ H1 H2 E) as [-> ->]. reflexivity.
Qed.

Lemma Currency_str_no_slash (c : Currency) :
  plain_currency c -> has_char "/" (Currency_str c) = false.
Proof.
  intros (_ & Hs & Hi).
  destruct (Currency_str_cases c) as [[_ ->]|[_ ->]]; [assumption|].
  rewrite has_char_app. cbn. rewrite Hs, Hi. reflexivity.
Qed.

(** str(currency) tells currencies apart as long as no symbol holds a
    '.': two such currencies that print alike are equal. *)
Theorem Currency_str_injective (c1 c2 : Currency) :
  has_char "." (symbol c1) = false -> has_char "." (symbol c2) = false ->
  Currency_str c1 = Currency_str c2 -> c1 = c2.
Proof. apply Currency_str_inj. Qed.

Lemma Currency_str_injective_witness :
  mkCurrency "USD" "Bank" = usd_bank.
Proof.
  apply (Currency_str_injective (mkCurrency "USD" "Bank") usd_bank); reflexivity.
Defined.

(** str(market) tells markets apart when the symbols of its currencies
    hold neither '.' nor '/' and the issuers no '/': two such markets
    that print alike are equal. *)
Theorem Market_str_injective (m1 m2 : Market) :
  plain_currency (base m1) -> plain_currency (counter m1) ->
  plain_currency (base m2) -> plain_currency (counter m2) ->
  Market_str m1 = Market_str m2 -> m1 = m2.
Proof.
  intros Hb1 Hc1 Hb2 Hc2 E. unfold Market_str in E. cbn in E.
  destruct (cut_unique _ _ _ _ _ (Currency_str_no_slash _ Hb1)
              (Currency_str_no_slash _ Hb2) E) as [Eb Ec].
  apply Currency_str_inj in Eb; [|apply Hb1|apply Hb2].
  apply Currency_str_inj in Ec; [|apply Hc1|apply Hc2].
  destruct m1, m2; cbn in *. congruence.
Qed.

Lemma Market_str_injective_witness :
  mkMarket (mkCurrency "BTC" "") usd_bank = mkMarket (mkCurrency "BTC" "") usd_bank.
Proof.
  apply (Market_str_injective (mkMarket (mkCurrency "BTC" "") usd_bank)
           (mkMarket (mkCurrency "BTC" "") usd_bank));
    repeat split.
Defined.

(** Printing alone does not separate symbol and issuer: a '.' in the
    symbol reads like the separator. *)
Example Currency_str_collision :
  Currency_str (mkCurrency "A.B" "") = Currency_str (mkCurrency "A" "B").
Proof. reflexivity. Qed.

